(** * routedns: the latency-probing resolver and the domain blocklist

    A shallow embedding of [fastest-tcp.go] (the [FastestTCP] resolver) and
    of the domain blocklist behind the [BlocklistDB] interface, with the
    properties the specification states about them.

    Go pointers to [dns.Msg] are locations of an explicit heap, so that
    [a.Answer = ...] is an update of a shared object and aliasing between
    the query and the answer is visible.  The channel and the deadline of
    a probe round are an oracle carried by the world: the outcome of every
    dial, the order in which the goroutines deliver, and how many results
    are received before [ctx.Done()] wins the [select].  The helper
    [logger], which [Resolve] calls first, is declared elsewhere and is a
    parameter of the whole method.

    The blocklist implementation is not among the files at hand (its
    interface and its tests are); its definitions follow the specification
    and say so. *)

From Stdlib Require Import Ascii.
From stdpp Require Import gmap strings list pretty.

Set Default Proof Using "Type".
Set Warnings "-clear-no-such-hyp,-register-all".

(** ** The parts of [github.com/miekg/dns] the resolver touches *)

Definition IP := list N.

Record dns_Question := {
  Name : string;
  Qtype : N;
  Qclass : N
}.

Record dns_RR_Header := {
  Hdr_Name : string;
  Rrtype : N;
  Class : N;
  Ttl : N;
  Rdlength : N
}.

(** A [dns.RR] is an interface value: the concrete type ([*dns.A],
    [*dns.AAAA], ...) is the constructor, and the header carries its own
    [Rrtype] field, which the library does not tie to the concrete type.
    Records inside a message are never the nil interface. *)
Inductive dns_RR :=
  | dns_A (Hdr : dns_RR_Header) (A : IP)
  | dns_AAAA (Hdr : dns_RR_Header) (AAAA : IP)
  | dns_CNAME (Hdr : dns_RR_Header) (Target : string)
  | dns_RFC3597 (Hdr : dns_RR_Header) (Rdata : string).

Definition Header (rr : dns_RR) : dns_RR_Header :=
  match rr with
  | dns_A h _ | dns_AAAA h _ | dns_CNAME h _ | dns_RFC3597 h _ => h
  end.

Record dns_MsgHdr := {
  Id : N;
  Response : bool;
  Opcode : Z;
  Authoritative : bool;
  Truncated : bool;
  RecursionDesired : bool;
  RecursionAvailable : bool;
  Zero : bool;
  AuthenticatedData : bool;
  CheckingDisabled : bool;
  Rcode : Z
}.

Record dns_Msg := {
  MsgHdr : dns_MsgHdr;
  Compress : bool;
  Question : list dns_Question;
  Answer : list dns_RR;
  Ns : list dns_RR;
  Extra : list dns_RR
}.

Definition dns_TypeA : N := 1.
Definition dns_TypeCNAME : N := 5.
Definition dns_TypeAAAA : N := 28.
Definition dns_ClassINET : N := 1.

#[global] Instance dns_Question_eq_dec : EqDecision dns_Question.
Proof. solve_decision. Defined.
#[global] Instance dns_RR_Header_eq_dec : EqDecision dns_RR_Header.
Proof. solve_decision. Defined.
#[global] Instance dns_RR_eq_dec : EqDecision dns_RR.
Proof. solve_decision. Defined.

(** [a.Answer = rrs]: every other field of the message keeps its value. *)
Definition set_Answer (m : dns_Msg) (rrs : list dns_RR) : dns_Msg :=
  {| MsgHdr := MsgHdr m; Compress := Compress m; Question := Question m;
     Answer := rrs; Ns := Ns m; Extra := Extra m |}.

(** ** Errors, the world, and the [Resolver] interface *)

Inductive error :=
  | errors_New (text : string)
  | context_DeadlineExceeded
  | net_OpError (text : string).

#[global] Instance error_eq_dec : EqDecision error.
Proof. solve_decision. Defined.

(** Modelled from the spec: [ClientInfo] is declared outside the files at
    hand; the specification calls it an opaque bag (originating address,
    protocol used) that every stage passes through unmodified. *)
Record ClientInfo := {
  SourceIP : IP;
  Listener : string
}.

Abbreviation loc := positive (only parsing).

(** What the network does to one probe round.  [dial i network ip port] is
    the result of the [DialContext] call of the goroutine started for the
    [i]-th candidate ([None]: the connection was established); [arrival]
    lists the goroutines in the order their sends reach the consumer;
    [patience] is the number of receives that win the [select] before
    [ctx.Done()] does. *)
Record Net := {
  dial : nat → string → IP → string → option error;
  arrival : list nat;
  patience : nat
}.

Record World := {
  heap : gmap loc dns_Msg;
  launched : list dns_RR;
  net : Net
}.

Abbreviation ptr := (option loc) (only parsing).

Definition deref (w : World) (p : ptr) : option dns_Msg :=
  p ≫= λ l, heap w !! l.

Inductive panic :=
  | IndexOutOfRange
  | NilDereference.

Inductive outcome (A : Type) :=
  | Return (w : World) (x : A)
  | Panic (p : panic).
Arguments Return {A} w x.
Arguments Panic {A} p.

(** The interface [Resolver]: a [Resolve] method from a message pointer and
    a [ClientInfo] to a message pointer and an error, and [String]. *)
Record Resolver := {
  Resolver_Resolve : World → loc → ClientInfo → outcome (ptr * option error);
  Resolver_String : string
}.

(** ** [FastestTCP] *)

Record FastestTCPOptions := {
  Port : Z;
  WaitAll : bool
}.

Record FastestTCP := {
  id : string;
  resolver : Resolver;
  opt : FastestTCPOptions;
  port : string
}.

Definition strconv_Itoa (n : Z) : string := pretty n.

Definition NewFastestTCP (id : string) (resolver : Resolver)
    (opt : FastestTCPOptions) : FastestTCP :=
  let port := strconv_Itoa (Port opt) in
  let port := if decide (port = "0"%string) then "443" else port in
  {| id := id; resolver := resolver; opt := opt; port := port |}.

Record tcpProbeResult := {
  rr : option dns_RR;
  err : option error
}.

(** The body of the goroutine [probe] starts for the [i]-th record: the
    value it sends on the result channel. *)
Definition goroutine (r : FastestTCP) (n : Net) (i : nat) (rec : dns_RR)
    : tcpProbeResult :=
  let dialled network ip :=
    match dial n i network ip (port r) with
    | Some e => {| rr := None; err := Some e |}
    | None => {| rr := Some rec; err := None |}
    end in
  match rec with
  | dns_A _ ip => dialled "tcp4" ip
  | dns_AAAA _ ip => dialled "tcp6" ip
  | _ => {| rr := None; err := Some (errors_New "unexpected resource type") |}
  end.

(** Every send the network lets through, in the order of arrival. *)
Definition sends (r : FastestTCP) (n : Net) (rrs : list dns_RR)
    : list tcpProbeResult :=
  omap (λ i, goroutine r n i <$> rrs !! i) (arrival n).

(** The world once one goroutine per record has been started. *)
Definition spawned (w : World) (rrs : list dns_RR) : World :=
  {| heap := heap w; launched := launched w ++ rrs; net := net w |}.

(** [probe]: one goroutine per record is started (logged in [launched]);
    the channel it returns is the list of results the consumer can receive
    before the deadline. *)
Definition probe (r : FastestTCP) (w : World) (rrs : list dns_RR)
    : World * list tcpProbeResult :=
  (spawned w rrs, take (patience (net w)) (sends r (net w) rrs)).

Definition probeFastest (r : FastestTCP) (w : World) (rrs : list dns_RR)
    : World * (option dns_RR * option error) :=
  let '(w', resultCh) := probe r w rrs in
  match resultCh with
  | res :: _ => (w', (rr res, err res))
  | [] => (w', (None, Some context_DeadlineExceeded))
  end.

(** The receive loop of [probeAll]: [n] iterations are left, [results] has
    been collected so far.  A result without an error always carries a
    record ([goroutine_ok] below), which [option_list] appends. *)
Fixpoint probeAll_loop (n : nat) (resultCh : list tcpProbeResult)
    (results : list dns_RR) : list dns_RR * option error :=
  match n with
  | O => (results, None)
  | S n' =>
    match resultCh with
    | res :: resultCh' =>
      match err res with
      | Some e => ([], Some e)
      | None => probeAll_loop n' resultCh' (results ++ option_list (rr res))
      end
    | [] => ([], Some context_DeadlineExceeded)
    end
  end.

Definition probeAll (r : FastestTCP) (w : World) (rrs : list dns_RR)
    : World * (list dns_RR * option error) :=
  let '(w', resultCh) := probe r w rrs in
  (w', probeAll_loop (length rrs) resultCh []).

(** [a.Answer = rrs] through the pointer [a]. *)
Definition store_Answer (w : World) (a : loc) (m : dns_Msg)
    (rrs : list dns_RR) : World :=
  {| heap := <[a := set_Answer m rrs]> (heap w);
     launched := launched w; net := net w |}.

(** The candidates: the answer records whose header type is the question's. *)
Definition candidates (qtype : N) (answer : list dns_RR) : list dns_RR :=
  filter (λ rec, Rrtype (Header rec) = qtype) answer.

(** The method [Resolve] from its second statement on: the delegation to
    the wrapped resolver and everything after it.  The first statement,
    the call of [logger], is added by [FastestTCP_Resolve] below; the log
    entry it returns is only written to. *)
Definition Resolve (r : FastestTCP) (w : World) (q : loc) (ci : ClientInfo)
    : outcome (ptr * option error) :=
  match Resolver_Resolve (resolver r) w q ci with
  | Panic p => Panic p
  | Return w1 (a, Some e) => Return w1 (a, Some e)
  | Return w1 (a, None) =>
    match heap w1 !! q with
    | None => Panic NilDereference
    | Some qm =>
      match Question qm with
      | [] => Panic IndexOutOfRange
      | question :: _ =>
        if decide (Qtype question ≠ dns_TypeA ∧ Qtype question ≠ dns_TypeAAAA)
        then Return w1 (a, None)
        else
          match a with
          | None => Panic NilDereference
          | Some la =>
            match heap w1 !! la with
            | None => Panic NilDereference
            | Some am =>
              let ipRRs := candidates (Qtype question) (Answer am) in
              if decide (length ipRRs < 2) then Return w1 (a, None)
              else if WaitAll (opt r) then
                let '(w2, (rrs, err)) := probeAll r w1 ipRRs in
                match err with
                | Some _ => Return w2 (a, None)
                | None => Return (store_Answer w2 la am rrs) (a, None)
                end
              else
                let '(w2, (first, err)) := probeFastest r w1 ipRRs in
                match err with
                | Some _ => Return w2 (a, None)
                | None =>
                  Return (store_Answer w2 la am (option_list first)) (a, None)
                end
            end
          end
      end
    end
  end.

(** [logger(id, q, ci)] is declared outside the files at hand and is handed
    the query pointer before anything else happens.  It is taken as a
    parameter: from the identifier, the world, the query pointer and the
    client information it either returns (the log entry is not modelled)
    or panics. *)
Abbreviation Logger :=
  (string → World → loc → ClientInfo → outcome unit) (only parsing).

(** The whole method [Resolve]: [log := logger(r.id, q, ci)], then the
    rest.  When [logger] panics the wrapped resolver is never called. *)
Definition FastestTCP_Resolve (logger : Logger) (r : FastestTCP) (w : World)
    (q : loc) (ci : ClientInfo) : outcome (ptr * option error) :=
  match logger (id r) w q ci with
  | Panic p => Panic p
  | Return w0 _ => Resolve r w0 q ci
  end.

Definition FastestTCP_String (r : FastestTCP) : string := id r.

(** [var _ Resolver = &FastestTCP{}] *)
Definition FastestTCP_Resolver (r : FastestTCP) : Resolver :=
  {| Resolver_Resolve := Resolve r; Resolver_String := FastestTCP_String r |}.

(** ** What the consumer of a probe round observes *)

(** The result that completes first, if any does before the deadline. *)
Definition first_result (r : FastestTCP) (w : World) (rrs : list dns_RR)
    : option tcpProbeResult :=
  head (probe r w rrs).2.

(** The records in the order in which their probes complete. *)
Definition completion_order (n : Net) (rrs : list dns_RR) : list dns_RR :=
  omap (λ i, rrs !! i) (arrival n).

(** The probe of the [i]-th record fails: its goroutine sends an error. *)
Definition probe_fails (r : FastestTCP) (n : Net) (rrs : list dns_RR)
    (i : nat) : Prop :=
  ∃ rec, rrs !! i = Some rec ∧ err (goroutine r n i rec) ≠ None.

(** A goroutine sends once: no index arrives twice. *)
Definition Net_wf (n : Net) : Prop := NoDup (arrival n).

(** The call reached the probing stage: delegation succeeded with the
    message [am] at [la], the question [question] is for an address type,
    and [ipRRs] are its candidates. *)
Record probing (r : FastestTCP) (w : World) (q : loc) (ci : ClientInfo)
    (w1 : World) (la : loc) (am : dns_Msg) (question : dns_Question)
    (ipRRs : list dns_RR) : Prop := {
  probing_delegated :
    Resolver_Resolve (resolver r) w q ci = Return w1 (Some la, None);
  probing_question :
    ∃ qm, heap w1 !! q = Some qm ∧ head (Question qm) = Some question;
  probing_address :
    Qtype question = dns_TypeA ∨ Qtype question = dns_TypeAAAA;
  probing_answer : heap w1 !! la = Some am;
  probing_candidates : ipRRs = candidates (Qtype question) (Answer am);
  probing_two : 2 ≤ length ipRRs
}.

(** The record set a probe round puts in the answer; [None] when the round
    falls back to the wrapped answer. *)
Definition probe_round (r : FastestTCP) (w : World) (rrs : list dns_RR)
    : option (list dns_RR) :=
  if WaitAll (opt r) then
    match (probeAll r w rrs).2 with
    | (rrs', None) => Some rrs'
    | (_, Some _) => None
    end
  else
    match (probeFastest r w rrs).2 with
    | (first, None) => Some (option_list first)
    | (_, Some _) => None
    end.

(** The reading of C8 that is refuted below: every record of the wrapped
    answer whose type differs from the question's is still in the answer
    [Resolve] returns. *)
Definition keeps_other_records (r : FastestTCP) (w : World) (q : loc)
    (ci : ClientInfo) : Prop :=
  ∀ w1 la am question ipRRs w' a',
    probing r w q ci w1 la am question ipRRs →
    Resolve r w q ci = Return w' (a', None) →
    ∀ rec, rec ∈ Answer am → Rrtype (Header rec) ≠ Qtype question →
      ∃ m', deref w' a' = Some m' ∧ rec ∈ Answer m'.

(** The reading of C10 that is refuted below: after a probe round that
    succeeds, the query message is what the wrapped resolver left. *)
Definition query_never_mutated (r : FastestTCP) (w : World) (q : loc)
    (ci : ClientInfo) : Prop :=
  ∀ w1 la am question ipRRs rrs w',
    probing r w q ci w1 la am question ipRRs →
    probe_round r w1 ipRRs = Some rrs →
    Resolve r w q ci = Return w' (Some la, None) →
    heap w' !! q = heap w1 !! q.

(** The results received before the deadline. *)
Definition received (r : FastestTCP) (w : World) (rrs : list dns_RR)
    : list tcpProbeResult :=
  (probe r w rrs).2.

(** The indices of [arr] below [N]: the goroutines that exist. *)
Definition in_range (N : nat) (arr : list nat) : list nat :=
  filter (λ i, i < N) arr.

(** ** The domain blocklist

    The interface [BlocklistDB] and [BlocklistMatch] are declared in the
    sources; the implementation [DomainDB] (constructor, [Reload], [Match])
    and the loader are only called from the tests.  What follows models
    them from the specification. *)

(** [BlocklistMatch]: which list and which rule matched. *)
Record BlocklistMatch := {
  List : string;
  Rule : string
}.

(** *** Names and rule patterns *)

Definition dot : ascii := "."%char.

Definition star : ascii := "*"%char.

(** Modelled from the spec: the name normalisation inside [DomainDB] is
    missing; names are case-insensitive, so one character is folded to
    lower case. *)
Definition to_lower (c : ascii) : ascii :=
  let n := Ascii.N_of_ascii c in
  if decide (65 ≤ n ∧ n ≤ 90)%N then Ascii.ascii_of_N (n + 32) else c.

(** Modelled from the spec: the name normalisation inside [DomainDB] is
    missing; one trailing dot is removed (trailing-dot normalisation of
    fully-qualified names). *)
Fixpoint trim_dot (s : string) : string :=
  match s with
  | EmptyString => EmptyString
  | String c s' =>
    if decide (c = dot ∧ s' = EmptyString) then EmptyString
    else String c (trim_dot s')
  end.

(** Modelled from the spec: the name normalisation inside [DomainDB] is
    missing; case folding of a whole name. *)
Fixpoint lower (s : string) : string :=
  match s with
  | EmptyString => EmptyString
  | String c s' => String (to_lower c) (lower s')
  end.

(** Modelled from the spec: the name normalisation inside [DomainDB] is
    missing; the normal form of a query name or of a raw pattern. *)
Definition normalize (s : string) : string := lower (trim_dot s).

(** Modelled from the spec: the splitting of names inside [DomainDB] is
    missing; the labels of a name, leftmost first. *)
Fixpoint labels_of (s : string) : list string :=
  match s with
  | EmptyString => [EmptyString]
  | String c s' =>
    if decide (c = dot) then EmptyString :: labels_of s'
    else match labels_of s' with
         | l :: ls => String c l :: ls
         | [] => [String c EmptyString]
         end
  end.

(** Modelled from the spec: the pattern check inside [DomainDB] is missing;
    whether a wildcard character occurs. *)
Fixpoint contains_star (s : string) : bool :=
  match s with
  | EmptyString => false
  | String c s' => bool_decide (c = star) || contains_star s'
  end.

(** Modelled from the spec: the classification of a Rule Pattern, which
    [DomainDB] is missing to show. *)
Inductive Classification :=
  | Exact
  | ExactAndSubdomains
  | SubdomainsOnly.

#[global] Instance Classification_eq_dec : EqDecision Classification.
Proof. solve_decision. Defined.

(** Modelled from the spec: the rule representation of [DomainDB] is
    missing; a Rule Pattern has a classification, the labels of the name it
    is anchored to, and the raw string it came from. *)
Record RulePattern := {
  classification : Classification;
  apex : list string;
  raw_rule : string
}.

(** Modelled from the spec: the error of a failed build, which [DomainDB]
    is missing to show; the specification only calls it a parse error. *)
Inductive load_error :=
  | ParseError (pattern : string).

(** Modelled from the spec: the pattern parser of [DomainDB] is missing.
    A leading [*.]
    gives [SubdomainsOnly], a leading dot [ExactAndSubdomains], anything
    else [Exact]; a wildcard anywhere else is rejected. *)
Definition parse_pattern (raw : string) : load_error + RulePattern :=
  let checked kind name :=
    if contains_star name then inl (ParseError raw)
    else inr {| classification := kind; apex := labels_of name;
                raw_rule := raw |} in
  match normalize raw with
  | String c1 (String c2 rest) =>
    if decide (c1 = star ∧ c2 = dot) then checked SubdomainsOnly rest
    else if decide (c1 = dot) then checked ExactAndSubdomains (String c2 rest)
    else checked Exact (String c1 (String c2 rest))
  | String c1 EmptyString =>
    if decide (c1 = dot) then checked ExactAndSubdomains EmptyString
    else checked Exact (String c1 EmptyString)
  | EmptyString => checked Exact EmptyString
  end.

(** *** The trie *)

(** Modelled from the spec: what a trie node of [DomainDB] (missing) holds
    per rule, the classification and the identifier of the originating
    rule. *)
Record TrieRule := {
  rule_kind : Classification;
  rule_id : string
}.

(** Modelled from the spec: the trie of [DomainDB] is missing; a node of
    the Domain Rule Trie has children keyed by labels, and the rules
    attached to it are all kept, in insertion order. *)
Inductive node :=
  | Node (rules : list TrieRule) (children : gmap string node).

Definition rules (n : node) : list TrieRule :=
  match n with Node rs _ => rs end.
Definition children (n : node) : gmap string node :=
  match n with Node _ cs => cs end.

Definition empty_node : node := Node [] ∅.

(** Modelled from the spec: the trie construction of [DomainDB] is
    missing; a rule is inserted at the node its labels identify, walking
    from the rightmost label, next to the rules already there. *)
Fixpoint insert_rule (path : list string) (rule : TrieRule) (n : node)
    : node :=
  match path with
  | [] => Node (rules n ++ [rule]) (children n)
  | label :: path' =>
    Node (rules n)
         (<[label := insert_rule path' rule
                       (default empty_node (children n !! label))]>
            (children n))
  end.

(** Modelled from the spec: the Build step of [DomainDB] is missing; it
    fails on the first malformed pattern and keeps no partial trie. *)
Fixpoint build (patterns : list string) (root : node) : load_error + node :=
  match patterns with
  | [] => inr root
  | raw :: patterns' =>
    match parse_pattern raw with
    | inl e => inl e
    | inr p =>
      build patterns'
        (insert_rule (reverse (apex p))
           {| rule_kind := classification p; rule_id := raw_rule p |} root)
    end
  end.

(** Modelled from the spec: the trie walk of [DomainDB.Match] is missing;
    the nodes reached from [n] along [path], one per matched label. *)
Fixpoint walk (n : node) (path : list string) : list node :=
  match path with
  | [] => []
  | label :: path' =>
    match children n !! label with
    | Some c => c :: walk c path'
    | None => []
    end
  end.

(** Modelled from the spec: the rule test of [DomainDB.Match] is missing;
    the first rule of a node with one of the given classifications. *)
Definition carries (kinds : list Classification) (n : node)
    : option TrieRule :=
  snd <$> list_find (λ rule, rule_kind rule ∈ kinds) (rules n).

(** Modelled from the spec: the lookup of [DomainDB.Match] is missing.
    Step 1: the node of the entire name,
    if it exists and carries [Exact] or [ExactAndSubdomains].  Step 2: the
    ancestors, most specific first, for [ExactAndSubdomains] or
    [SubdomainsOnly]. *)
Definition lookup_rule (root : node) (path : list string) : option TrieRule :=
  let visited := walk root path in
  let own :=
    if decide (length visited = length path) then last visited else None in
  match own ≫= carries [Exact; ExactAndSubdomains] with
  | Some rule => Some rule
  | None =>
    let ancestors := reverse (take (length path - 1) visited) in
    head (omap (carries [ExactAndSubdomains; SubdomainsOnly]) ancestors)
  end.

(** *** The blocklist instances *)

(** Modelled from the spec: the struct [DomainDB] is missing; a Domain
    Blocklist owns one trie and a list name, and knows its Rule Loader
    (here the key of the loader's current output in the world). *)
Record DomainDB := {
  name : string;
  root : node;
  loader : string
}.

(** Modelled from the spec: the loader is missing; the world holds the
    blocklist instances that exist and what every Rule Loader currently
    outputs. *)
Record Blocklists := {
  instances : gmap positive DomainDB;
  loaders : gmap string (list string)
}.

(** Modelled from the spec: [NewStaticLoader] is missing; the loader [key]
    outputs [rules] from now on. *)
Definition NewStaticLoader (key : string) (rules : list string)
    (w : Blocklists) : Blocklists :=
  {| instances := instances w; loaders := <[key := rules]> (loaders w) |}.

(** Modelled from the spec: the allocation of a [DomainDB] is missing; a
    new instance lives at a location no instance has. *)
Definition alloc (db : DomainDB) (w : Blocklists) : Blocklists * positive :=
  let l := fresh (dom (instances w)) in
  ({| instances := <[l := db]> (instances w); loaders := loaders w |}, l).

(** Modelled from the spec: [NewDomainDB] is missing; a blocklist with a
    name and a loader, nothing loaded yet. *)
Definition NewDomainDB (name loader : string) (w : Blocklists)
    : Blocklists * positive :=
  alloc {| name := name; root := empty_node; loader := loader |} w.

(** Modelled from the spec: [DomainDB.Reload] is missing; it builds a new
    trie from the loader's current output and returns a new instance; on a
    parse error it returns the error. *)
Definition Reload (w : Blocklists) (self : positive)
    : option (Blocklists * (option positive * option load_error)) :=
  db ← instances w !! self;
  Some match build (default [] (loaders w !! loader db)) empty_node with
       | inl e => (w, (None, Some e))
       | inr trie =>
         let '(w', l) :=
           alloc {| name := name db; root := trie; loader := loader db |} w in
         (w', (Some l, None))
       end.

(** Modelled from the spec: [DomainDB.Match] is missing; the normalised
    query name is looked up from its rightmost label; a match reports the
    list and the rule, without override address or PTR names. *)
Definition Match (db : DomainDB) (q : dns_Question)
    : option IP * list string * option BlocklistMatch * bool :=
  match lookup_rule (root db) (reverse (labels_of (normalize (Name q)))) with
  | Some rule =>
    (None, [], Some {| List := name db; Rule := rule_id rule |}, true)
  | None => (None, [], None, false)
  end.


(** Modelled from the spec: [DomainDB.String] is missing; the list name. *)
Definition DomainDB_String (db : DomainDB) : string := name db.

(** [Match] called through a pointer to an instance. *)
Definition Match_at (w : Blocklists) (self : positive) (q : dns_Question)
    : option (option IP * list string * option BlocklistMatch * bool) :=
  (λ db, Match db q) <$> instances w !! self.

(** The decision of [Match] for an [A] question on [qname], as the tests
    ask it. *)
Definition matched (w : Blocklists) (self : positive) (qname : string)
    : option bool :=
  snd <$> Match_at w self
            {| Name := qname; Qtype := dns_TypeA; Qclass := dns_ClassINET |}.

(** The rule [Match] reports for that question, if it reports one. *)
Definition matched_rule (w : Blocklists) (self : positive) (qname : string)
    : option string :=
  Match_at w self
    {| Name := qname; Qtype := dns_TypeA; Qclass := dns_ClassINET |}
    ≫= λ res, Rule <$> res.1.2.

(** A wildcard that is not in leading position, as in [sub.*.com]. *)
Definition wildcard_not_leading (s : string) : Prop :=
  ∃ i, 0 < i ∧ String.get i s = Some star.

(** A leading wildcard without the separating dot, as in [*domain.com]. *)
Definition malformed_wildcard (s : string) : Prop :=
  String.get 0 s = Some star ∧ String.get 1 s ≠ Some dot.

Definition invalid_pattern (raw : string) : Prop :=
  wildcard_not_leading (normalize raw) ∨ malformed_wildcard (normalize raw).

(** What the loader of [db] currently outputs. *)
Definition loader_output (w : Blocklists) (db : DomainDB) : list string :=
  default [] (loaders w !! loader db).

(** ** [cmd/routedns/resolver.go]: building resolvers from the configuration

    [instantiateResolver] wires configuration values into the client
    constructors of the library.  The constructors, the TLS helpers, the
    default ports and the configuration struct are declared outside the
    files at hand: the struct has the fields the function reads, and the
    library functions are the fields of [Externals], taken as a parameter.
    A [*tls.Config], [*dtls.Config] or [*socks5.Client] is a pointer to an
    object outside the model. *)

(** [time.Duration(n) * time.Second]: a product of 64-bit signed integers,
    which wraps around. *)
Definition int64_wrap (z : Z) : Z :=
  ((z + 2 ^ 63) `mod` 2 ^ 64 - 2 ^ 63)%Z.

Definition time_Second : Z := 1000000000.

Definition seconds (n : Z) : Z := int64_wrap (n * time_Second).

Record DoQClientOptions := {
  DoQ_BootstrapAddr : string;
  DoQ_LocalAddr : IP;
  DoQ_TLSConfig : ptr;
  DoQ_QueryTimeout : Z
}.

Record DoTClientOptions := {
  DoT_BootstrapAddr : string;
  DoT_LocalAddr : IP;
  DoT_TLSConfig : ptr;
  DoT_QueryTimeout : Z;
  DoT_Dialer : ptr
}.

Record DTLSClientOptions := {
  DTLS_BootstrapAddr : string;
  DTLS_LocalAddr : IP;
  DTLS_DTLSConfig : ptr;
  DTLS_UDPSize : N;
  DTLS_QueryTimeout : Z
}.

Record DoHClientOptions := {
  DoH_Method : string;
  DoH_TLSConfig : ptr;
  DoH_BootstrapAddr : string;
  DoH_Transport : string;
  DoH_LocalAddr : IP;
  DoH_QueryTimeout : Z
}.

Record DNSClientOptions := {
  DNS_LocalAddr : IP;
  DNS_UDPSize : N;
  DNS_QueryTimeout : Z;
  DNS_Dialer : ptr
}.

(** The functions and constants of the library and of [net] and [socks5]
    that [resolver.go] calls.  A constructor returns a client pointer (nil
    is [None]) and an error. *)
Record Externals := {
  AddressWithDefault : string → string → string;
  DoQPort : string;
  DoTPort : string;
  DTLSPort : string;
  DoHPort : string;
  PlainDNSPort : string;
  TLSClientConfig : string → string → string → string → ptr * option error;
  DTLSClientConfig : string → string → string → ptr * option error;
  net_ParseIP : string → IP;
  socks5_NewClient : string → string → string → Z → Z → ptr * option error;
  NewDoQClient :
    string → string → DoQClientOptions → option Resolver * option error;
  NewDoTClient :
    string → string → DoTClientOptions → option Resolver * option error;
  NewDTLSClient :
    string → string → DTLSClientOptions → option Resolver * option error;
  NewDoHClient :
    string → string → DoHClientOptions → option Resolver * option error;
  NewDNSClient :
    string → string → string → DNSClientOptions
    → option Resolver * option error
}.

Module main.

Record doh := {
  Method : string
}.

(** The configuration struct [resolver], with the fields
    [instantiateResolver] and [socks5DialerFromConfig] read. *)
Record resolver := {
  Protocol : string;
  Address : string;
  CA : string;
  ClientCrt : string;
  ClientKey : string;
  ServerName : string;
  BootstrapAddr : string;
  LocalAddr : string;
  QueryTimeout : Z;
  EDNS0UDPSize : N;
  DoH : doh;
  Transport : string;
  Socks5Address : string;
  Socks5Username : string;
  Socks5Password : string
}.

(** Returns a dialer if a socks5 proxy is configured, nil otherwise; the
    error of [socks5.NewClient] is dropped. *)
Definition socks5DialerFromConfig (E : Externals) (cfg : resolver) : ptr :=
  if decide (Socks5Address cfg = ""%string) then None
  else
    (socks5_NewClient E (Socks5Address cfg) (Socks5Username cfg)
       (Socks5Password cfg) 0 5).1.

(** [resolvers[id], err = ...; if err != nil { return err }]: the map entry
    is assigned before the error is looked at. *)
Definition assign (id : string) (resolvers : gmap string (option Resolver))
    (made : option Resolver * option error)
    : gmap string (option Resolver) * option error :=
  (<[id := made.1]> resolvers, made.2).

(** [instantiateResolver]: the map is a Go map, shared with the caller; the
    function returns it as it leaves it, next to the error. *)
Definition instantiateResolver (E : Externals) (id : string) (r : resolver)
    (resolvers : gmap string (option Resolver))
    : gmap string (option Resolver) * option error :=
  if decide (Protocol r = "doq"%string) then
    let address := AddressWithDefault E (Address r) (DoQPort E) in
    match TLSClientConfig E (CA r) (ClientCrt r) (ClientKey r) (ServerName r)
    with
    | (_, Some err) => (resolvers, Some err)
    | (tlsConfig, None) =>
      let opt :=
        {| DoQ_BootstrapAddr := BootstrapAddr r;
           DoQ_LocalAddr := net_ParseIP E (LocalAddr r);
           DoQ_TLSConfig := tlsConfig;
           DoQ_QueryTimeout := seconds (QueryTimeout r) |} in
      assign id resolvers (NewDoQClient E id address opt)
    end
  else if decide (Protocol r = "dot"%string) then
    let address := AddressWithDefault E (Address r) (DoTPort E) in
    match TLSClientConfig E (CA r) (ClientCrt r) (ClientKey r) (ServerName r)
    with
    | (_, Some err) => (resolvers, Some err)
    | (tlsConfig, None) =>
      let opt :=
        {| DoT_BootstrapAddr := BootstrapAddr r;
           DoT_LocalAddr := net_ParseIP E (LocalAddr r);
           DoT_TLSConfig := tlsConfig;
           DoT_QueryTimeout := seconds (QueryTimeout r);
           DoT_Dialer := socks5DialerFromConfig E r |} in
      assign id resolvers (NewDoTClient E id address opt)
    end
  else if decide (Protocol r = "dtls"%string) then
    let address := AddressWithDefault E (Address r) (DTLSPort E) in
    match DTLSClientConfig E (CA r) (ClientCrt r) (ClientKey r) with
    | (_, Some err) => (resolvers, Some err)
    | (dtlsConfig, None) =>
      let opt :=
        {| DTLS_BootstrapAddr := BootstrapAddr r;
           DTLS_LocalAddr := net_ParseIP E (LocalAddr r);
           DTLS_DTLSConfig := dtlsConfig;
           DTLS_UDPSize := EDNS0UDPSize r;
           DTLS_QueryTimeout := seconds (QueryTimeout r) |} in
      assign id resolvers (NewDTLSClient E id address opt)
    end
  else if decide (Protocol r = "doh"%string) then
    let address := AddressWithDefault E (Address r) (DoHPort E) in
    match TLSClientConfig E (CA r) (ClientCrt r) (ClientKey r) (ServerName r)
    with
    | (_, Some err) => (resolvers, Some err)
    | (tlsConfig, None) =>
      let opt :=
        {| DoH_Method := Method (DoH r);
           DoH_TLSConfig := tlsConfig;
           DoH_BootstrapAddr := BootstrapAddr r;
           DoH_Transport := Transport r;
           DoH_LocalAddr := net_ParseIP E (LocalAddr r);
           DoH_QueryTimeout := seconds (QueryTimeout r) |} in
      assign id resolvers (NewDoHClient E id address opt)
    end
  else if decide (Protocol r = "tcp"%string ∨ Protocol r = "udp"%string) then
    let address := AddressWithDefault E (Address r) (PlainDNSPort E) in
    let opt :=
      {| DNS_LocalAddr := net_ParseIP E (LocalAddr r);
         DNS_UDPSize := EDNS0UDPSize r;
         DNS_QueryTimeout := seconds (QueryTimeout r);
         DNS_Dialer := socks5DialerFromConfig E r |} in
    assign id resolvers (NewDNSClient E id address (Protocol r) opt)
  else
    (resolvers,
     Some (errors_New ("unsupported protocol '" +:+ Protocol r
                       +:+ "' for resolver '" +:+ id +:+ "'"))).

(** The protocols [instantiateResolver] has a case for. *)
Definition supported : list string :=
  ["doq"; "dot"; "dtls"; "doh"; "tcp"; "udp"]%string.

(** The error of the TLS set-up the protocol of [r] needs, if it needs one
    and it fails. *)
Definition tls_error (E : Externals) (r : resolver) : option error :=
  if decide (Protocol r ∈ ["doq"; "dot"; "doh"]%string) then
    (TLSClientConfig E (CA r) (ClientCrt r) (ClientKey r) (ServerName r)).2
  else if decide (Protocol r = "dtls"%string) then
    (DTLSClientConfig E (CA r) (ClientCrt r) (ClientKey r)).2
  else None.

(** [r] with other socks5 settings. *)
Definition with_socks5 (r : resolver) (address username password : string)
    : resolver :=
  {| Protocol := Protocol r; Address := Address r; CA := CA r;
     ClientCrt := ClientCrt r; ClientKey := ClientKey r;
     ServerName := ServerName r; BootstrapAddr := BootstrapAddr r;
     LocalAddr := LocalAddr r; QueryTimeout := QueryTimeout r;
     EDNS0UDPSize := EDNS0UDPSize r; DoH := DoH r; Transport := Transport r;
     Socks5Address := address; Socks5Username := username;
     Socks5Password := password |}.

End main.

(** ** Concrete worlds used to exercise the statements *)

Definition hdr0 : dns_MsgHdr :=
  {| Id := 7; Response := true; Opcode := 0; Authoritative := false;
     Truncated := false; RecursionDesired := true; RecursionAvailable := true;
     Zero := false; AuthenticatedData := false; CheckingDisabled := false;
     Rcode := 0 |}.

Definition rrh (name : string) (t : N) : dns_RR_Header :=
  {| Hdr_Name := name; Rrtype := t; Class := dns_ClassINET; Ttl := 300;
     Rdlength := 0 |}.

Definition a1 : dns_RR := dns_A (rrh "srv.example." dns_TypeA) [192; 0; 2; 1]%N.
Definition a2 : dns_RR := dns_A (rrh "srv.example." dns_TypeA) [192; 0; 2; 2]%N.
Definition cname1 : dns_RR :=
  dns_CNAME (rrh "www.example." dns_TypeCNAME) "srv.example.".

Definition ask (name : string) (t : N) : dns_Msg :=
  {| MsgHdr := hdr0; Compress := false;
     Question := [{| Name := name; Qtype := t; Qclass := dns_ClassINET |}];
     Answer := []; Ns := []; Extra := [] |}.

Definition reply (query : dns_Msg) (answer : list dns_RR) : dns_Msg :=
  set_Answer query answer.

Definition ci0 : ClientInfo :=
  {| SourceIP := [127; 0; 0; 1]%N; Listener := "test" |}.

(** A network in which every dial connects, results arrive in the order
    [order], and [k] of them are received before the deadline. *)
Definition net_ok (order : list nat) (k : nat) : Net :=
  {| dial := λ _ _ _ _, None; arrival := order; patience := k |}.

(** A network in which the dial of goroutine [bad] is refused. *)
Definition net_refusing (bad : nat) (order : list nat) (k : nat) : Net :=
  {| dial := λ i _ _ _,
       if decide (i = bad) then Some (net_OpError "connection refused")
       else None;
     arrival := order; patience := k |}.

Definition world0 (query : dns_Msg) (n : Net) : World :=
  {| heap := {[ 1%positive := query ]}; launched := []; net := n |}.

(** An upstream that allocates its answer at location 2. *)
Definition upstream (answer : list dns_RR) : Resolver :=
  {| Resolver_Resolve := λ w q _,
       match heap w !! q with
       | Some qm =>
         Return {| heap := <[2%positive := reply qm answer]> (heap w);
                   launched := launched w; net := net w |}
                (Some 2%positive, None)
       | None => Panic NilDereference
       end;
     Resolver_String := "upstream" |}.

(** An upstream that drops the query: neither an answer nor an error. *)
Definition upstream_dropping : Resolver :=
  {| Resolver_Resolve := λ w _ _, Return w (None, None);
     Resolver_String := "drop" |}.

(** A logger that reads nothing of the query. *)
Definition logger_quiet : Logger := λ _ w _ _, Return w ().

(** A logger that reads the name of the first question for its entry,
    without a length check. *)
Definition logger_qname : Logger := λ _ w q _,
  match heap w !! q with
  | None => Panic NilDereference
  | Some qm =>
    match Question qm with
    | [] => Panic IndexOutOfRange
    | _ :: _ => Return w ()
    end
  end.

(** An upstream that fails. *)
Definition upstream_failing : Resolver :=
  {| Resolver_Resolve := λ w _ _, Return w (None, Some (errors_New "failed"));
     Resolver_String := "failing" |}.

Definition fastest (up : Resolver) (waitAll : bool) : FastestTCP :=
  NewFastestTCP "fastest" up {| Port := 0; WaitAll := waitAll |}.

Definition mx_query : dns_Msg := ask "example." 15%N.

Definition a_query : dns_Msg := ask "www.example." dns_TypeA.

Definition empty_query : dns_Msg :=
  {| MsgHdr := hdr0; Compress := false; Question := []; Answer := [];
     Ns := []; Extra := [] |}.

Definition three_records : list dns_RR := [cname1; a1; a2].

Definition a_question : dns_Question :=
  {| Name := "www.example."; Qtype := dns_TypeA; Qclass := dns_ClassINET |}.

Definition after_upstream (n : Net) : World :=
  {| heap := <[2%positive := reply a_query three_records]>
               {[ 1%positive := a_query ]};
     launched := []; net := n |}.

(** An upstream that answers in place: it fills in the answer section of
    the query message and returns that same message. *)
Definition upstream_in_place (answer : list dns_RR) : Resolver :=
  {| Resolver_Resolve := λ w q _,
       match heap w !! q with
       | Some qm =>
         Return {| heap := <[q := reply qm answer]> (heap w);
                   launched := launched w; net := net w |}
                (Some q, None)
       | None => Panic NilDereference
       end;
     Resolver_String := "in-place" |}.

Definition in_place_world (n : Net) : World :=
  {| heap := {[ 1%positive := reply a_query [a1; a2] ]};
     launched := []; net := n |}.

(** A library whose TLS set-up fails on the certificate file [missing.pem]
    and whose plain DNS client refuses an address without host. *)
Definition externals0 : Externals :=
  {| AddressWithDefault := λ addr port, addr +:+ ":" +:+ port;
     DoQPort := "8853"; DoTPort := "853"; DTLSPort := "853";
     DoHPort := "443"; PlainDNSPort := "53";
     TLSClientConfig := λ ca _ _ _,
       if decide (ca = "missing.pem"%string)
       then (None, Some (errors_New "open missing.pem"))
       else (Some 1%positive, None);
     DTLSClientConfig := λ ca _ _,
       if decide (ca = "missing.pem"%string)
       then (None, Some (errors_New "open missing.pem"))
       else (Some 1%positive, None);
     net_ParseIP := λ _, [];
     socks5_NewClient := λ _ _ _ _ _, (Some 2%positive, None);
     NewDoQClient := λ _ _ _, (Some upstream_failing, None);
     NewDoTClient := λ _ _ _, (Some upstream_failing, None);
     NewDTLSClient := λ _ _ _, (Some upstream_failing, None);
     NewDoHClient := λ _ _ _, (Some upstream_failing, None);
     NewDNSClient := λ _ addr _ _,
       if decide (addr = ":53"%string)
       then (None, Some (errors_New "missing host"))
       else (Some upstream_failing, None) |}.

Definition config0 (protocol address ca : string) : main.resolver :=
  {| main.Protocol := protocol; main.Address := address; main.CA := ca;
     main.ClientCrt := ""; main.ClientKey := ""; main.ServerName := "";
     main.BootstrapAddr := ""; main.LocalAddr := "";
     main.QueryTimeout := 5; main.EDNS0UDPSize := 1232;
     main.DoH := {| main.Method := "POST" |}; main.Transport := "tcp";
     main.Socks5Address := ""; main.Socks5Username := "";
     main.Socks5Password := "" |}.

(** A resolver map that already has an entry. *)
Definition resolvers0 : gmap string (option Resolver) :=
  {[ "old"%string := Some upstream_failing ]}.

(** The rule set and the set-up of [TestDomainDB]: a static loader, a new
    blocklist on it, one [Reload]. *)
Definition scenario_rules : list string :=
  ["domain1.com."; ".domain2.com."; "x.domain2.com"; "*.domain3.com";
   "x.x.domain3.com"; "domain4.com"; ".domain4.com"]%string.

Definition no_blocklists : Blocklists := {| instances := ∅; loaders := ∅ |}.

Definition loaded (rules : list string) : option (Blocklists * positive) :=
  let '(w1, db) :=
    NewDomainDB "testlist" "static"
      (NewStaticLoader "static" rules no_blocklists) in
  match Reload w1 db with
  | Some (w2, (Some m, None)) => Some (w2, m)
  | _ => None
  end.

(** The world of [TestDomainDB] after the rules behind the loader have been
    replaced by [rules]. *)
Definition refreshed (rules : list string) : Blocklists :=
  match loaded scenario_rules with
  | Some (w, _) => NewStaticLoader "static" rules w
  | None => no_blocklists
  end.

(** ** Properties of [FastestTCP.Resolve] *)

Example NewFastestTCP_default_port :
  port (fastest upstream_failing false) = "443".
Proof. reflexivity. Qed.

Example NewFastestTCP_given_port :
  port (NewFastestTCP "x" upstream_failing {| Port := 853; WaitAll := true |})
  = "853".
Proof. reflexivity. Qed.

(** C3. When the wrapped resolver returns a non-nil error, [Resolve] returns
    that very error together with the answer pointer the wrapped resolver
    returned, in the world the wrapped resolver left: no goroutine is
    started and no message is written. *)
Theorem Resolve_propagates_upstream_error
    (r : FastestTCP) (w : World) (q : loc) (ci : ClientInfo)
    (w1 : World) (a : ptr) (e : error) :
  Resolver_Resolve (resolver r) w q ci = Return w1 (a, Some e) →
  Resolve r w q ci = Return w1 (a, Some e).
Proof. intros Hup. unfold Resolve. by rewrite Hup. Qed.

Lemma Resolve_propagates_upstream_error_witness :
  Resolve (fastest upstream_failing false)
          (world0 (ask "srv.example." dns_TypeA) (net_ok [0; 1] 2)) 1%positive ci0
  = Return (world0 (ask "srv.example." dns_TypeA) (net_ok [0; 1] 2))
           (None, Some (errors_New "failed")).
Proof. by apply Resolve_propagates_upstream_error. Defined.

(** C6. When delegation succeeds and the question's type is neither A nor
    AAAA, [Resolve] returns the wrapped resolver's answer pointer with a nil
    error in the world the wrapped resolver left: the answer is unchanged
    and no goroutine is started. *)
Theorem Resolve_skips_non_address
    (r : FastestTCP) (w : World) (q : loc) (ci : ClientInfo)
    (w1 : World) (a : ptr) (qm : dns_Msg) (question : dns_Question) :
  Resolver_Resolve (resolver r) w q ci = Return w1 (a, None) →
  heap w1 !! q = Some qm →
  head (Question qm) = Some question →
  Qtype question ≠ dns_TypeA →
  Qtype question ≠ dns_TypeAAAA →
  Resolve r w q ci = Return w1 (a, None).
Proof.
  intros Hup Hq Hhd HA HAAAA. unfold Resolve. rewrite Hup, Hq.
  destruct (Question qm) as [|question' rest]; simplify_eq/=.
  by rewrite decide_True.
Qed.

(** C7. When delegation succeeds for an address question and the answer
    holds fewer than two records of the question's type, [Resolve] returns
    the wrapped answer with a nil error in the world the wrapped resolver
    left: the answer is unchanged and no goroutine is started. *)
Theorem Resolve_skips_single_candidate
    (r : FastestTCP) (w : World) (q : loc) (ci : ClientInfo)
    (w1 : World) (la : loc) (qm am : dns_Msg) (question : dns_Question) :
  Resolver_Resolve (resolver r) w q ci = Return w1 (Some la, None) →
  heap w1 !! q = Some qm →
  head (Question qm) = Some question →
  Qtype question = dns_TypeA ∨ Qtype question = dns_TypeAAAA →
  heap w1 !! la = Some am →
  length (candidates (Qtype question) (Answer am)) < 2 →
  Resolve r w q ci = Return w1 (Some la, None).
Proof.
  intros Hup Hq Hhd Haddr Ha Hlen. unfold Resolve. rewrite Hup, Hq.
  destruct (Question qm) as [|question' rest]; simplify_eq/=.
  rewrite decide_False by naive_solver.
  rewrite Ha. by rewrite decide_True.
Qed.

(** The read of [q.Question[0]] right after a successful delegation has no
    length check: given that the wrapped resolver returns, the rest of the
    method panics with an index out of range exactly when delegation
    succeeded on a query whose question list is empty. *)
Lemma Resolve_index_panic_iff
    (r : FastestTCP) (w : World) (q : loc) (ci : ClientInfo)
    (w1 : World) (a : ptr) (err : option error) :
  Resolver_Resolve (resolver r) w q ci = Return w1 (a, err) →
  Resolve r w q ci = Panic IndexOutOfRange ↔
  err = None ∧ ∃ qm, heap w1 !! q = Some qm ∧ Question qm = [].
Proof.
  intros Hup. unfold Resolve. rewrite Hup.
  destruct err as [e|]; [naive_solver|].
  destruct (heap w1 !! q) as [qm|] eqn:Hq; [|naive_solver].
  destruct (Question qm) as [|question rest] eqn:HQ; [naive_solver|].
  split; [|intros [_ (qm' & ? & ?)]; congruence]. intros H. exfalso.
  unfold probeAll, probeFastest, probe in H.
  repeat first [case_decide | case_match]; simplify_eq.
Qed.

Lemma Resolve_skips_non_address_witness :
  Resolve (fastest (upstream [a1; a2]) false)
          (world0 mx_query (net_ok [0; 1] 2)) 1%positive ci0
  = Return {| heap := <[2%positive := reply mx_query [a1; a2]]>
                        {[ 1%positive := mx_query ]};
              launched := []; net := net_ok [0; 1] 2 |}
           (Some 2%positive, None).
Proof.
  apply (Resolve_skips_non_address _ _ _ _ _ _ mx_query
           {| Name := "example."; Qtype := 15; Qclass := dns_ClassINET |});
    [reflexivity | reflexivity | reflexivity | done | done].
Defined.

Lemma Resolve_skips_single_candidate_witness :
  Resolve (fastest (upstream [cname1; a1]) true)
          (world0 a_query (net_ok [0; 1] 2)) 1%positive ci0
  = Return {| heap := <[2%positive := reply a_query [cname1; a1]]>
                        {[ 1%positive := a_query ]};
              launched := []; net := net_ok [0; 1] 2 |}
           (Some 2%positive, None).
Proof.
  apply (Resolve_skips_single_candidate _ _ _ _ _ _ a_query
           (reply a_query [cname1; a1])
           {| Name := "www.example."; Qtype := dns_TypeA;
              Qclass := dns_ClassINET |});
    [reflexivity | reflexivity | reflexivity | by left | reflexivity
    | vm_compute; lia].
Defined.

(** Every statement about [Resolve] is a statement about the whole method
    for the calls in which [logger] returns. *)
Lemma FastestTCP_Resolve_logged logger r w q ci w0 :
  logger (id r) w q ci = Return w0 () →
  FastestTCP_Resolve logger r w q ci = Resolve r w0 q ci.
Proof. intros Hlog. unfold FastestTCP_Resolve. by rewrite Hlog. Qed.

(** C9. The whole method, with [logger] a parameter.  If [logger] panics,
    the call panics there and the wrapped resolver is not called.  If
    [logger] and the wrapped resolver return, the call panics with an index
    out of range exactly when delegation succeeded on a query whose
    question list is empty: [q.Question[0]] is read right after a
    successful delegation without a length check, and with a non-empty
    question list that read cannot panic. *)
Theorem FastestTCP_Resolve_index_panic
    (logger : Logger) (r : FastestTCP) (w : World) (q : loc)
    (ci : ClientInfo) :
  (∀ p, logger (id r) w q ci = Panic p →
     FastestTCP_Resolve logger r w q ci = Panic p) ∧
  (∀ w0 w1 a err,
     logger (id r) w q ci = Return w0 () →
     Resolver_Resolve (resolver r) w0 q ci = Return w1 (a, err) →
     (FastestTCP_Resolve logger r w q ci = Panic IndexOutOfRange ↔
      err = None ∧ ∃ qm, heap w1 !! q = Some qm ∧ Question qm = [])).
Proof.
  split.
  - intros p Hlog. unfold FastestTCP_Resolve. by rewrite Hlog.
  - intros w0 w1 a err Hlog Hup.
    rewrite (FastestTCP_Resolve_logged _ _ _ _ _ _ Hlog).
    exact (Resolve_index_panic_iff _ _ _ _ _ _ _ Hup).
Qed.

Lemma FastestTCP_Resolve_index_panic_witness :
  FastestTCP_Resolve logger_quiet (fastest (upstream [a1; a2]) false)
    (world0 empty_query (net_ok [0; 1] 2)) 1%positive ci0
  = Panic IndexOutOfRange ∧
  FastestTCP_Resolve logger_qname (fastest upstream_failing false)
    (world0 empty_query (net_ok [0; 1] 2)) 1%positive ci0
  = Panic IndexOutOfRange ∧
  FastestTCP_Resolve logger_qname (fastest (upstream [a1; a2]) false)
    (world0 a_query (net_ok [0; 1] 2)) 1%positive ci0
  ≠ Panic IndexOutOfRange.
Proof.
  split; [|split].
  - eapply (FastestTCP_Resolve_index_panic logger_quiet
              (fastest (upstream [a1; a2]) false)
              (world0 empty_query (net_ok [0; 1] 2)) 1%positive ci0);
      [reflexivity | reflexivity |].
    split; [reflexivity|]. exists empty_query. split; reflexivity.
  - by apply (FastestTCP_Resolve_index_panic logger_qname
                (fastest upstream_failing false)
                (world0 empty_query (net_ok [0; 1] 2)) 1%positive ci0).
  - intros Hpanic.
    destruct (FastestTCP_Resolve_index_panic logger_qname
                (fastest (upstream [a1; a2]) false)
                (world0 a_query (net_ok [0; 1] 2)) 1%positive ci0)
      as [_ Hiff].
    apply (Hiff _ _ _ _ eq_refl eq_refl) in Hpanic
      as [_ (qm & Hqm & Hempty)].
    vm_compute in Hqm. by simplify_eq.
Defined.

(** ** The probing stage *)

Lemma probe_world r w rrs : (probe r w rrs).1 = spawned w rrs.
Proof. reflexivity. Qed.

Lemma spawned_heap w rrs : heap (spawned w rrs) = heap w.
Proof. reflexivity. Qed.

Lemma spawned_launched w rrs : launched (spawned w rrs) = launched w ++ rrs.
Proof. reflexivity. Qed.

(** Past the two skips, [Resolve] is the probe round followed by at most
    one store through the answer pointer. *)
Lemma Resolve_probing r w q ci w1 la am question ipRRs :
  probing r w q ci w1 la am question ipRRs →
  Resolve r w q ci =
    Return (match probe_round r w1 ipRRs with
            | Some rrs => store_Answer (spawned w1 ipRRs) la am rrs
            | None => spawned w1 ipRRs
            end) (Some la, None).
Proof.
  intros [Hup (qm & Hq & Hhd) Haddr Ha -> Htwo].
  unfold Resolve, probe_round. rewrite Hup, Hq.
  destruct (Question qm) as [|question' rest]; simplify_eq/=.
  rewrite decide_False by (intros [??]; destruct Haddr; congruence).
  rewrite Ha, decide_False by lia.
  unfold probeAll, probeFastest.
  destruct (probe r w1 _) as [w2 ch] eqn:Hp.
  assert (w2 = spawned w1 (candidates (Qtype question) (Answer am))) as ->
    by (by rewrite <- (probe_world r), Hp).
  destruct (WaitAll (opt r)); simpl.
  - by destruct (probeAll_loop _ _ _) as [rrs [e|]].
  - by destruct ch as [|[first [e|]] ch].
Qed.

(** A send without an error carries the record that was probed. *)
Lemma goroutine_ok r n i rec res :
  goroutine r n i rec = res → err res = None → rr res = Some rec.
Proof.
  intros <-. unfold goroutine.
  destruct rec; simpl; try done; by destruct (dial _ _ _ _ _).
Qed.

Lemma sends_elem_of r n rrs res :
  res ∈ sends r n rrs ↔
  ∃ i rec, i ∈ arrival n ∧ rrs !! i = Some rec ∧ res = goroutine r n i rec.
Proof.
  unfold sends. rewrite list_elem_of_omap. split.
  - intros (i & Hi & Hres). destruct (rrs !! i) as [rec|] eqn:Hrec; [|done].
    exists i, rec. by simplify_eq/=.
  - intros (i & rec & Hi & Hrec & ->). exists i. by rewrite Hrec.
Qed.

Lemma sends_ok_candidate r n rrs res :
  res ∈ sends r n rrs → err res = None →
  ∃ rec, rr res = Some rec ∧ rec ∈ rrs.
Proof.
  intros (i & rec & _ & Hrec & ->)%sends_elem_of Hok.
  exists rec. split; [by eapply goroutine_ok|by eapply list_elem_of_lookup_2].
Qed.

Lemma first_result_sent r w rrs res :
  first_result r w rrs = Some res → res ∈ sends r (net w) rrs.
Proof.
  unfold first_result, probe. simpl. intros Hhd.
  eapply (subseteq_take (patience (net w))). 
  destruct (take _ _); simplify_eq/=. left.
Qed.

Lemma probe_round_fastest r w rrs :
  WaitAll (opt r) = false →
  probe_round r w rrs =
    match first_result r w rrs with
    | Some {| rr := first; err := None |} => Some (option_list first)
    | _ => None
    end.
Proof.
  intros Hmode. unfold probe_round, probeFastest, first_result.
  rewrite Hmode. destruct (probe r w rrs) as [w' [|[first [e|]] ch]]; done.
Qed.

(** The receive loop, characterised: it succeeds exactly when the first
    [n] results are there and none carries an error, and then returns what
    they carry, in order. *)
Lemma probeAll_loop_spec n ch acc :
  match probeAll_loop n ch acc with
  | (rrs, None) =>
    n ≤ length ch ∧ Forall (λ res, err res = None) (take n ch) ∧
    rrs = acc ++ omap rr (take n ch)
  | (rrs, Some e) =>
    rrs = [] ∧
    (length ch < n ∧ e = context_DeadlineExceeded ∨
     Exists (λ res, err res = Some e) (take n ch))
  end.
Proof.
  revert ch acc. induction n as [|n IH]; intros ch acc; simpl.
  - split; [lia|]. split; [constructor|]. by rewrite app_nil_r.
  - destruct ch as [|res ch]; simpl.
    + split; [done|]. left. split; [lia|done].
    + destruct (err res) as [e|] eqn:Hres.
      * split; [done|]. right. by left.
      * specialize (IH ch (acc ++ option_list (rr res))).
        destruct (probeAll_loop n ch _) as [rrs [e|]].
        -- destruct IH as [-> [[Hshort ->]|Hex]]; (split; [done|]).
           ++ left. split; [lia|done].
           ++ right. by right.
        -- destruct IH as (Hlen & Hall & ->). split; [lia|].
           split; [by constructor|].
           rewrite <- (assoc_L (++)). f_equal. by destruct (rr res).
Qed.

Lemma probe_round_all r w rrs :
  WaitAll (opt r) = true →
  probe_round r w rrs =
    match probeAll_loop (length rrs) (probe r w rrs).2 [] with
    | (rrs', None) => Some rrs'
    | (_, Some _) => None
    end.
Proof. intros Hmode. unfold probe_round, probeAll. by rewrite Hmode. Qed.

(** Whatever a successful round puts in the answer was a candidate. *)
Lemma probe_round_candidates r w rrs rrs' :
  probe_round r w rrs = Some rrs' → ∀ rec, rec ∈ rrs' → rec ∈ rrs.
Proof.
  destruct (WaitAll (opt r)) eqn:Hmode.
  - rewrite probe_round_all by done.
    pose proof (probeAll_loop_spec (length rrs) (probe r w rrs).2 []) as Hspec.
    destruct (probeAll_loop _ _ _) as [rrs0 [e|]]; [done|].
    destruct Hspec as (_ & Hall & ->). intros [= <-] rec.
    simpl. rewrite list_elem_of_omap. intros (res & Hres & Hrec).
    assert (res ∈ sends r (net w) rrs) as Hsent.
    { by eapply subseteq_take, subseteq_take. }
    rewrite Forall_forall in Hall.
    destruct (sends_ok_candidate _ _ _ _ Hsent (Hall _ Hres))
      as (rec' & Hrec' & Hin).
    congruence.
  - rewrite probe_round_fastest by done.
    destruct (first_result r w rrs) as [[first [e|]]|] eqn:Hfirst; try done.
    intros [= <-] rec Hin.
    destruct (sends_ok_candidate _ _ _ _
                (first_result_sent _ _ _ _ Hfirst) eq_refl)
      as (rec' & Hrec' & Hin').
    simpl in Hrec'. subst first. simpl in Hin. set_solver.
Qed.

Ltac solve_probing :=
  split; [reflexivity | eexists; split; reflexivity | (by left) || (by right)
         | reflexivity | reflexivity | vm_compute; lia].

(** C4. First-to-respond mode, at least two candidates.  [Resolve] returns
    the wrapped answer pointer with a nil error, whatever the probes do.
    If the result that completes first carries no error, it carries one of
    the candidates and the answer's record set becomes exactly that record;
    if it carries an error, or no result arrives before the deadline, no
    message is written. *)
Theorem Resolve_first_to_respond
    (r : FastestTCP) (w : World) (q : loc) (ci : ClientInfo) (w1 : World)
    (la : loc) (am : dns_Msg) (question : dns_Question)
    (ipRRs : list dns_RR) :
  probing r w q ci w1 la am question ipRRs →
  WaitAll (opt r) = false →
  ∃ w', Resolve r w q ci = Return w' (Some la, None) ∧
    (∀ res, first_result r w1 ipRRs = Some res → err res = None →
       ∃ rec, rr res = Some rec ∧ rec ∈ ipRRs ∧
              heap w' = <[la := set_Answer am [rec]]> (heap w1)) ∧
    (∀ res e, first_result r w1 ipRRs = Some res → err res = Some e →
       heap w' = heap w1) ∧
    (first_result r w1 ipRRs = None → heap w' = heap w1).
Proof.
  intros Hp Hmode. eexists.
  split; [exact (Resolve_probing _ _ _ _ _ _ _ _ _ Hp)|].
  rewrite probe_round_fastest by done.
  destruct (first_result r w1 ipRRs) as [[first e]|] eqn:Hfirst.
  - split; [|split; [|done]].
    + intros res [= <-] He. simpl in He. subst e.
      destruct (sends_ok_candidate r (net w1) ipRRs _
                  (first_result_sent _ _ _ _ Hfirst) eq_refl)
        as (rec & Hrec & Hin).
      simpl in Hrec. subst first. by exists rec.
    + intros res e' [= <-] He. simpl in He. by subst e.
  - by split; [|split].
Qed.

Lemma Resolve_first_to_respond_witness :
  ∃ w', Resolve (fastest (upstream three_records) false)
                (world0 a_query (net_ok [1; 0] 2)) 1%positive ci0
        = Return w' (Some 2%positive, None) ∧
        heap w' !! 2%positive = Some (reply a_query [a2]).
Proof.
  destruct (Resolve_first_to_respond
              (fastest (upstream three_records) false)
              (world0 a_query (net_ok [1; 0] 2)) 1%positive ci0
              (after_upstream (net_ok [1; 0] 2)) 2%positive
              (reply a_query three_records) a_question [a1; a2])
    as (w' & Hret & Hok & _); [solve_probing | reflexivity |].
  exists w'. split; [exact Hret|].
  destruct (Hok {| rr := Some a2; err := None |} eq_refl eq_refl)
    as (rec & [= <-] & _ & ->).
  reflexivity.
Defined.

(** C8, as stated, fails: with an alias record next to two address records
    and a probe that succeeds, the returned answer holds the fastest
    address record only; the alias record is gone. *)
Lemma Resolve_drops_alias_on_success :
  ¬ keeps_other_records (fastest (upstream three_records) false)
      (world0 a_query (net_ok [0; 1] 2)) 1%positive ci0.
Proof.
  intros Hkeep.
  destruct (Hkeep (after_upstream (net_ok [0; 1] 2)) 2%positive
              (reply a_query three_records) a_question [a1; a2]
              (store_Answer (spawned (after_upstream (net_ok [0; 1] 2)) [a1; a2])
                 2%positive (reply a_query three_records) [a1])
              (Some 2%positive) ltac:(solve_probing) eq_refl cname1)
    as (m' & Hm' & Hin).
  - set_solver.
  - done.
  - vm_compute in Hm'. simplify_eq. set_solver.
Qed.

(** C8, amended.  Past the two skips, the goroutines started are exactly
    the candidates, all of the question's type, so records of another type
    are not probed.  The returned answer is either untouched (the round
    fell back) or has its record set replaced by records taken from the
    candidates alone, so that no record of another type is left in it. *)
Theorem Resolve_other_records
    (r : FastestTCP) (w : World) (q : loc) (ci : ClientInfo) (w1 : World)
    (la : loc) (am : dns_Msg) (question : dns_Question)
    (ipRRs : list dns_RR) :
  probing r w q ci w1 la am question ipRRs →
  ∃ w', Resolve r w q ci = Return w' (Some la, None) ∧
    launched w' = launched w1 ++ ipRRs ∧
    (∀ rec, rec ∈ ipRRs ↔
            rec ∈ Answer am ∧ Rrtype (Header rec) = Qtype question) ∧
    match probe_round r w1 ipRRs with
    | None => heap w' = heap w1
    | Some rrs =>
      heap w' = <[la := set_Answer am rrs]> (heap w1) ∧
      (∀ rec, rec ∈ rrs → rec ∈ ipRRs) ∧
      (∀ rec, Rrtype (Header rec) ≠ Qtype question → rec ∉ rrs)
    end.
Proof.
  intros Hp. eexists. split; [exact (Resolve_probing _ _ _ _ _ _ _ _ _ Hp)|].
  assert (∀ rec, rec ∈ ipRRs ↔
            rec ∈ Answer am ∧ Rrtype (Header rec) = Qtype question) as Hcand.
  { intros rec. rewrite (probing_candidates _ _ _ _ _ _ _ _ _ Hp).
    unfold candidates. rewrite list_elem_of_filter. tauto. }
  assert (∀ rrs, probe_round r w1 ipRRs = Some rrs →
            ∀ rec, rec ∈ rrs → rec ∈ ipRRs) as Hsub.
  { intros rrs Hround. by eapply probe_round_candidates. }
  destruct (probe_round r w1 ipRRs) as [rrs|] eqn:Hround; simpl.
  - specialize (Hsub rrs eq_refl).
    split; [done|]. split; [exact Hcand|]. split; [done|]. split; [exact Hsub|].
    intros rec Hty Hin. apply Hsub, Hcand in Hin. tauto.
  - split; [done|]. split; [exact Hcand|]. done.
Qed.

Lemma Resolve_other_records_witness :
  ∃ w', Resolve (fastest (upstream three_records) true)
                (world0 a_query (net_ok [1; 0] 2)) 1%positive ci0
        = Return w' (Some 2%positive, None) ∧
        launched w' = [a1; a2] ∧
        heap w' !! 2%positive = Some (reply a_query [a2; a1]).
Proof.
  destruct (Resolve_other_records
              (fastest (upstream three_records) true)
              (world0 a_query (net_ok [1; 0] 2)) 1%positive ci0
              (after_upstream (net_ok [1; 0] 2)) 2%positive
              (reply a_query three_records) a_question [a1; a2])
    as (w' & Hret & Hlaunched & _ & Hround); [solve_probing|].
  exists w'. split; [exact Hret|]. split; [exact Hlaunched|].
  change (probe_round _ _ _) with (Some [a2; a1]) in Hround.
  destruct Hround as [-> _]. reflexivity.
Defined.

(** C10, as stated, fails: when the wrapped resolver hands back the query
    message itself as its answer, the store through the answer pointer is a
    store into the query message. *)
Lemma Resolve_mutates_aliased_query :
  ¬ query_never_mutated (fastest (upstream_in_place [a1; a2]) false)
      (world0 a_query (net_ok [0; 1] 2)) 1%positive ci0.
Proof.
  intros Hframe.
  specialize (Hframe (in_place_world (net_ok [0; 1] 2)) 1%positive
                (reply a_query [a1; a2]) a_question [a1; a2] [a1]
                (store_Answer (spawned (in_place_world (net_ok [0; 1] 2)) [a1; a2])
                   1%positive (reply a_query [a1; a2]) [a1])
                ltac:(solve_probing) eq_refl eq_refl).
  vm_compute in Hframe. discriminate Hframe.
Qed.

(** C10, amended.  When a probe round succeeds, [Resolve] returns the
    pointer the wrapped resolver returned; the message behind it differs
    from the wrapped answer in its [Answer] field only; every other message
    of the heap, and so the query message whenever it is not the answer
    message itself, is what the wrapped resolver left. *)
Theorem Resolve_success_frame
    (r : FastestTCP) (w : World) (q : loc) (ci : ClientInfo) (w1 : World)
    (la : loc) (am : dns_Msg) (question : dns_Question)
    (ipRRs rrs : list dns_RR) :
  probing r w q ci w1 la am question ipRRs →
  probe_round r w1 ipRRs = Some rrs →
  ∃ w' m', Resolve r w q ci = Return w' (Some la, None) ∧
    heap w' !! la = Some m' ∧
    Answer m' = rrs ∧
    MsgHdr m' = MsgHdr am ∧ Compress m' = Compress am ∧
    Question m' = Question am ∧ Ns m' = Ns am ∧ Extra m' = Extra am ∧
    (∀ l, l ≠ la → heap w' !! l = heap w1 !! l) ∧
    (q ≠ la → heap w' !! q = heap w1 !! q).
Proof.
  intros Hp Hround. eexists _, (set_Answer am rrs).
  split; [exact (Resolve_probing _ _ _ _ _ _ _ _ _ Hp)|].
  rewrite Hround. simpl.
  split; [by rewrite lookup_insert_eq|].
  do 6 (split; [reflexivity|]).
  split; intros; by rewrite lookup_insert_ne.
Qed.

Lemma Resolve_success_frame_witness :
  ∃ w', Resolve (fastest (upstream three_records) false)
                (world0 a_query (net_ok [0; 1] 2)) 1%positive ci0
        = Return w' (Some 2%positive, None) ∧
        heap w' !! 2%positive = Some (reply a_query [a1]) ∧
        heap w' !! 1%positive = Some a_query.
Proof.
  destruct (Resolve_success_frame
              (fastest (upstream three_records) false)
              (world0 a_query (net_ok [0; 1] 2)) 1%positive ci0
              (after_upstream (net_ok [0; 1] 2)) 2%positive
              (reply a_query three_records) a_question [a1; a2] [a1])
    as (w' & m' & Hret & Hla & HAns & HHdr & HC & HQ & HNs & HEx & _ & Hq);
    [solve_probing | reflexivity |].
  exists w'. split; [exact Hret|]. split.
  - rewrite Hla. f_equal. destruct m'; simpl in *. by subst.
  - by rewrite Hq.
Defined.

(** ** Wait-for-all mode: every goroutine delivers once *)

Section arrivals.
Context {B : Type} (f : nat → option B) (N : nat).
Hypothesis f_out : ∀ i, N ≤ i → f i = None.
Hypothesis f_in : ∀ i, i < N → is_Some (f i).

Lemma omap_in_range arr : omap f arr = omap f (in_range N arr).
Proof using f_out.
  unfold in_range. induction arr as [|i arr IH]; [done|].
  rewrite filter_cons. case_decide as Hi; csimpl.
  - destruct (f i); csimpl; by rewrite IH.
  - by rewrite f_out by lia.
Qed.

Lemma length_omap_in_range arr :
  length (omap f arr) = length (in_range N arr).
Proof using f_out f_in.
  unfold in_range. induction arr as [|i arr IH]; [done|].
  rewrite filter_cons. case_decide as Hi; csimpl.
  - destruct (f_in i Hi) as [x ->]. csimpl. by rewrite IH.
  - by rewrite f_out by lia.
Qed.
End arrivals.

Lemma in_range_submseteq N arr : NoDup arr → in_range N arr ⊆+ seq 0 N.
Proof.
  intros Hnd. apply NoDup_submseteq; [by apply NoDup_filter|].
  intros i [Hi _]%list_elem_of_filter. apply elem_of_seq. lia.
Qed.

Lemma in_range_length N arr : NoDup arr → length (in_range N arr) ≤ N.
Proof.
  intros Hnd%(in_range_submseteq N)%submseteq_length.
  by rewrite length_seq in Hnd.
Qed.

Lemma in_range_all N arr :
  NoDup arr → N ≤ length (in_range N arr) → in_range N arr ≡ₚ seq 0 N.
Proof.
  intros Hnd Hlen. apply submseteq_length_Permutation.
  - by apply in_range_submseteq.
  - by rewrite length_seq.
Qed.

Lemma omap_lookup_seq {A} (l : list A) k n :
  omap (λ i, l !! i) (seq k n) = take n (drop k l).
Proof.
  revert k. induction n as [|n IH]; intros k; csimpl; [done|].
  rewrite IH. destruct (l !! k) as [x|] eqn:Hk.
  - by rewrite (drop_S l x k Hk).
  - apply lookup_ge_None_1 in Hk.
    rewrite (drop_ge l (S k)), (drop_ge l k) by lia. by rewrite !take_nil.
Qed.

(** When as many results as candidates arrive, the records in completion
    order are the candidates, each once. *)
Lemma completion_order_Permutation (n : Net) (rrs : list dns_RR) :
  Net_wf n → length rrs ≤ length (in_range (length rrs) (arrival n)) →
  completion_order n rrs ≡ₚ rrs.
Proof.
  intros Hwf Hlen. unfold completion_order.
  rewrite (omap_in_range _ (length rrs)) by (intros; by apply lookup_ge_None_2).
  rewrite (in_range_all _ _ Hwf Hlen), omap_lookup_seq.
  by rewrite drop_0, firstn_all.
Qed.

Lemma sends_length r n rrs :
  length (sends r n rrs) = length (in_range (length rrs) (arrival n)).
Proof.
  apply length_omap_in_range.
  - intros i Hi. by rewrite lookup_ge_None_2.
  - intros i Hi. destruct (lookup_lt_is_Some_2 rrs i Hi) as [x ->]. by eexists.
Qed.

(** If no probe fails, the records the sends carry are the records in
    completion order. *)
Lemma sends_carry_completion_order r n rrs :
  (∀ i, ¬ probe_fails r n rrs i) →
  omap rr (sends r n rrs) = completion_order n rrs.
Proof.
  intros Hok. unfold sends, completion_order.
  induction (arrival n) as [|i arr IH]; [done|]. csimpl.
  destruct (rrs !! i) as [rec|] eqn:Hrec; csimpl; [|done].
  rewrite IH. rewrite (goroutine_ok r n i rec _ eq_refl); [done|].
  destruct (err (goroutine r n i rec)) as [e|] eqn:He; [|done].
  destruct (Hok i). exists rec. by rewrite He.
Qed.

(** Once as many results as candidates have been received, every goroutine
    has delivered: the results received are all the sends. *)
Lemma received_all r w rrs :
  Net_wf (net w) → length rrs ≤ length (received r w rrs) →
  take (length rrs) (received r w rrs) = sends r (net w) rrs ∧
  length rrs ≤ length (in_range (length rrs) (arrival (net w))).
Proof.
  unfold received, probe. simpl. intros Hwf Hlen.
  pose proof (in_range_length (length rrs) _ Hwf) as Hle.
  rewrite length_take, sends_length in Hlen.
  split; [|lia].
  rewrite take_take, Nat.min_l by lia.
  apply take_ge. rewrite sends_length. lia.
Qed.

Lemma probe_round_all_fallback r w rrs :
  WaitAll (opt r) = true → Net_wf (net w) →
  (∃ i, probe_fails r (net w) rrs i) ∨
    length (received r w rrs) < length rrs →
  probe_round r w rrs = None.
Proof.
  intros Hmode Hwf Hbad. rewrite probe_round_all by done.
  pose proof (probeAll_loop_spec (length rrs) (probe r w rrs).2 []) as Hspec.
  destruct (probeAll_loop _ _ _) as [rrs' [e|]]; [done|]. exfalso.
  destruct Hspec as (Hlen & Hall & _).
  destruct Hbad as [(i & rec & Hrec & Hfail)|Hshort];
    [|unfold received in *; lia].
  destruct (received_all r w rrs Hwf Hlen) as [Htake Hfull].
  unfold received in Htake. rewrite Htake in Hall.
  rewrite Forall_forall in Hall. apply Hfail, Hall, sends_elem_of.
  exists i, rec. split; [|done].
  assert (i ∈ in_range (length rrs) (arrival (net w))) as Hi.
  { rewrite (in_range_all _ _ Hwf Hfull). apply elem_of_seq.
    apply lookup_lt_Some in Hrec. lia. }
  by apply list_elem_of_filter in Hi as [_ Hi].
Qed.

Lemma probe_round_all_success r w rrs :
  WaitAll (opt r) = true → Net_wf (net w) →
  (∀ i, ¬ probe_fails r (net w) rrs i) →
  length rrs ≤ length (received r w rrs) →
  probe_round r w rrs = Some (completion_order (net w) rrs).
Proof.
  intros Hmode Hwf Hok Hlen. rewrite probe_round_all by done.
  pose proof (probeAll_loop_spec (length rrs) (probe r w rrs).2 []) as Hspec.
  destruct (received_all r w rrs Hwf Hlen) as [Htake _].
  unfold received in *. rewrite Htake in Hspec.
  destruct (probeAll_loop _ _ _) as [rrs' [e|]].
  - exfalso. destruct Hspec as [_ [[Hshort _]|Hex]]; [lia|].
    apply Exists_exists in Hex as (res & Hres & He).
    apply sends_elem_of in Hres as (i & rec & _ & Hrec & ->).
    apply (Hok i). exists rec. by rewrite He.
  - destruct Hspec as (_ & _ & ->). simpl.
    by rewrite sends_carry_completion_order.
Qed.

(** C5. Wait-for-all mode, [N >= 2] candidates, every goroutine delivering
    once.  [Resolve] returns the wrapped answer pointer with a nil error.
    If some probe fails, or fewer than [N] results are received before the
    deadline, no message is written.  If no probe fails and [N] results are
    received, the answer's record set becomes the candidates in the order in
    which their probes completed, which is a reordering of the full
    candidate set. *)
Theorem Resolve_wait_for_all
    (r : FastestTCP) (w : World) (q : loc) (ci : ClientInfo) (w1 : World)
    (la : loc) (am : dns_Msg) (question : dns_Question)
    (ipRRs : list dns_RR) :
  probing r w q ci w1 la am question ipRRs →
  WaitAll (opt r) = true →
  Net_wf (net w1) →
  ∃ w', Resolve r w q ci = Return w' (Some la, None) ∧
    ((∃ i, probe_fails r (net w1) ipRRs i) ∨
       length (received r w1 ipRRs) < length ipRRs →
     heap w' = heap w1) ∧
    ((∀ i, ¬ probe_fails r (net w1) ipRRs i) →
     length ipRRs ≤ length (received r w1 ipRRs) →
     heap w' = <[la := set_Answer am (completion_order (net w1) ipRRs)]>
                 (heap w1) ∧
     completion_order (net w1) ipRRs ≡ₚ ipRRs).
Proof.
  intros Hp Hmode Hwf. eexists.
  split; [exact (Resolve_probing _ _ _ _ _ _ _ _ _ Hp)|]. split.
  - intros Hbad. by rewrite probe_round_all_fallback.
  - intros Hok Hlen. rewrite probe_round_all_success by done.
    split; [done|]. apply completion_order_Permutation; [done|].
    by apply (received_all r w1 ipRRs).
Qed.

Lemma Resolve_wait_for_all_witness :
  (∃ w', Resolve (fastest (upstream three_records) true)
                 (world0 a_query (net_ok [1; 0] 2)) 1%positive ci0
         = Return w' (Some 2%positive, None) ∧
         heap w' !! 2%positive = Some (reply a_query [a2; a1])) ∧
  (∃ w', Resolve (fastest (upstream three_records) true)
                 (world0 a_query (net_refusing 0 [1; 0] 2)) 1%positive ci0
         = Return w' (Some 2%positive, None) ∧
         heap w' !! 2%positive = Some (reply a_query three_records)).
Proof.
  split.
  - destruct (Resolve_wait_for_all
                (fastest (upstream three_records) true)
                (world0 a_query (net_ok [1; 0] 2)) 1%positive ci0
                (after_upstream (net_ok [1; 0] 2)) 2%positive
                (reply a_query three_records) a_question [a1; a2])
      as (w' & Hret & _ & Hok);
      [solve_probing | reflexivity | by apply (bool_decide_unpack _) |].
    exists w'. split; [exact Hret|].
    destruct Hok as [-> _]; [| vm_compute; lia | reflexivity].
    intros i (rec & Hrec & Hfail).
    destruct i as [|[|i]]; simplify_eq/=; by apply Hfail.
  - destruct (Resolve_wait_for_all
                (fastest (upstream three_records) true)
                (world0 a_query (net_refusing 0 [1; 0] 2)) 1%positive ci0
                (after_upstream (net_refusing 0 [1; 0] 2)) 2%positive
                (reply a_query three_records) a_question [a1; a2])
      as (w' & Hret & Hbad & _);
      [solve_probing | reflexivity | by apply (bool_decide_unpack _) |].
    exists w'. split; [exact Hret|].
    rewrite Hbad; [reflexivity|].
    left. exists 0, a1. split; [reflexivity|]. vm_compute. discriminate.
Defined.


(** ** Properties of the domain blocklist *)

Lemma contains_star_get s :
  contains_star s = true ↔ ∃ i, String.get i s = Some star.
Proof.
  induction s as [|c s IH]; simpl.
  - split; [done|]. by intros [i ?].
  - rewrite orb_true_iff, bool_decide_eq_true, IH. split.
    + intros [->|[i Hi]]; [by exists 0|by exists (S i)].
    + intros [[|i] Hi]; [left; by simplify_eq/=|right; by exists i].
Qed.

Lemma contains_star_false s i :
  contains_star s = false → String.get i s ≠ Some star.
Proof.
  intros Hno Hi. assert (contains_star s = true) as Hyes.
  { apply contains_star_get. by exists i. }
  congruence.
Qed.

(** The parser rejects exactly the invalid patterns. *)
Lemma parse_pattern_invalid raw :
  invalid_pattern raw ↔ parse_pattern raw = inl (ParseError raw).
Proof.
  unfold invalid_pattern, parse_pattern, wildcard_not_leading,
    malformed_wildcard.
  destruct (normalize raw) as [|c1 [|c2 rest]]; simpl.
  - split; [|done]. intros [(i & ? & ?)|[? _]]; [by destruct i|done].
  - case_decide as Hc1; simpl.
    + subst c1. split; [|done].
      intros [([|[|i]] & ? & ?)|[? _]]; (done || lia).
    + rewrite orb_false_r. case_bool_decide as Hs; simplify_eq/=.
      * split; [done|]. intros _. right. done.
      * split; [|done].
        intros [([|[|i]] & ? & ?)|[? _]]; try (done || lia). congruence.
  - case_decide as Hsd; [|case_decide as Hd]; simpl.
    + destruct Hsd as [-> ->].
      destruct (contains_star rest) eqn:Hrest.
      * split; [done|]. intros _. left.
        apply contains_star_get in Hrest as [i Hi].
        exists (S (S i)). split; [lia|done].
      * split; [|done].
        intros [([|[|i]] & ? & Hi)|[_ ?]]; try (done || lia).
        simpl in Hi. by apply contains_star_false with (i := i) in Hrest.
    + subst c1.
      destruct (bool_decide (c2 = star) || contains_star rest) eqn:Hrest.
      * split; [done|]. intros _. left.
        change (contains_star (String c2 rest) = true) in Hrest.
        apply contains_star_get in Hrest as [i Hi].
        exists (S i). split; [lia|done].
      * split; [|done].
        change (contains_star (String c2 rest) = false) in Hrest.
        intros [([|i] & ? & Hi)|[? _]]; try (done || lia).
        simpl in Hi. by apply contains_star_false with (i := i) in Hrest.
    + destruct (bool_decide (c1 = star) || _) eqn:Hall.
      * split; [done|]. intros _.
        change (contains_star (String c1 (String c2 rest)) = true) in Hall.
        apply contains_star_get in Hall as [[|i] Hi].
        -- right. simplify_eq/=. split; [done|]. intros [= ->]. tauto.
        -- left. exists (S i). split; [lia|done].
      * split; [|done].
        change (contains_star (String c1 (String c2 rest)) = false) in Hall.
        intros [(i & _ & Hi)|[Hi _]];
          [destruct (contains_star_false _ i Hall Hi)
          |destruct (contains_star_false _ 0 Hall Hi)].
Qed.

Lemma build_invalid patterns root0 raw :
  raw ∈ patterns → invalid_pattern raw → ∃ e, build patterns root0 = inl e.
Proof.
  intros Hin Hbad. revert root0.
  induction patterns as [|p patterns IH]; intros root0; [by inversion Hin|].
  simpl. destruct (parse_pattern p) as [e|rp] eqn:Hp; [by exists e|].
  apply elem_of_cons in Hin as [->|Hin]; [|by apply IH].
  apply parse_pattern_invalid in Hbad. congruence.
Qed.

(** [Reload] never writes the instance it is called on. *)
Lemma Reload_receiver_unchanged w self w' res :
  Reload w self = Some (w', res) →
  instances w' !! self = instances w !! self.
Proof.
  unfold Reload. destruct (instances w !! self) as [db|] eqn:Hself; [|done].
  simpl. destruct (build _ _) as [e|trie]; intros [= <- <-]; [done|].
  simpl. rewrite <- Hself. apply lookup_insert_ne. intros Heq.
  assert (self ∈ dom (instances w)) as Hdom by (by apply elem_of_dom).
  rewrite <- Heq in Hdom. by apply is_fresh in Hdom.
Qed.

(** C2. For every blocklist instance whose loader currently outputs an
    invalid pattern (a wildcard that is not leading, or a leading wildcard
    without its dot), [Reload] returns an error and no new instance, the
    receiver is the instance it was, and [Match] through it answers every
    question as before the call. *)
Theorem Reload_invalid_pattern
    (w : Blocklists) (self : positive) (db : DomainDB) (raw : string) :
  instances w !! self = Some db →
  raw ∈ loader_output w db →
  invalid_pattern raw →
  ∃ w' e, Reload w self = Some (w', (None, Some e)) ∧
    instances w' !! self = Some db ∧
    ∀ q, Match_at w' self q = Match_at w self q.
Proof.
  intros Hself Hin Hbad.
  destruct (build_invalid _ empty_node _ Hin Hbad) as [e He].
  assert (Reload w self = Some (w, (None, Some e))) as Hre.
  { unfold Reload. rewrite Hself. simpl. fold (loader_output w db).
    by rewrite He. }
  exists w, e. split; [done|]. split; [done|]. done.
Qed.

Example sub_star_com_invalid : invalid_pattern "sub.*.com".
Proof. left. exists 4. split; [lia|reflexivity]. Qed.

Example star_domain_com_invalid : invalid_pattern "*domain.com".
Proof. right. split; [reflexivity|discriminate]. Qed.

(** [TestDomainDBError]: a fresh blocklist on either pattern fails to load. *)
Example TestDomainDBError_patterns :
  loaded ["sub.*.com"%string] = None ∧ loaded ["*domain.com"%string] = None.
Proof. split; reflexivity. Qed.

Lemma Reload_invalid_pattern_witness :
  ∃ w' e, Reload (refreshed ["*domain.com"; "sub.*.com"]%string) 2%positive
          = Some (w', (None, Some e)) ∧
          matched w' 2%positive "sub.domain2.com." = Some true ∧
          matched w' 2%positive "domain3.com." = Some false.
Proof.
  assert (∃ db,
            instances (refreshed ["*domain.com"; "sub.*.com"]%string)
              !! 2%positive = Some db ∧
            "sub.*.com"%string
              ∈ loader_output (refreshed ["*domain.com"; "sub.*.com"]%string) db)
    as (db & Hdb & Hin).
  { eexists. split; [vm_compute; reflexivity|]. vm_compute. right. left. }
  destruct (Reload_invalid_pattern _ _ db "sub.*.com" Hdb Hin)
    as (w' & e & Hre & _ & Hsame).
  - left. exists 4. split; [lia|reflexivity].
  - exists w', e. split; [exact Hre|]. unfold matched.
    rewrite !Hsame. split; vm_compute; reflexivity.
Defined.

(** C1. The scenario of [TestDomainDB]: the blocklist loaded from the seven
    rules matches [domain1.com.], [domain2.com.], [sub.domain2.com.],
    [sub.domain3.com.], [domain4.com.] and [sub.domain4.com.], and does not
    match [x.domain1.com.], [domain3.com.], [unblocked.test.] and [com.].
    For [x.domain2.com.] the rule reported is the exact rule at that name,
    not the rule of its parent; the subdomains-only rule at [domain3.com]
    covers [sub.domain3.com.] and not [domain3.com.] itself. *)
Theorem TestDomainDB_scenario :
  ∃ w m, loaded scenario_rules = Some (w, m) ∧
    matched w m "domain1.com." = Some true ∧
    matched w m "x.domain1.com." = Some false ∧
    matched w m "domain2.com." = Some true ∧
    matched w m "sub.domain2.com." = Some true ∧
    matched w m "domain3.com." = Some false ∧
    matched w m "sub.domain3.com." = Some true ∧
    matched w m "domain4.com." = Some true ∧
    matched w m "sub.domain4.com." = Some true ∧
    matched w m "unblocked.test." = Some false ∧
    matched w m "com." = Some false ∧
    matched_rule w m "x.domain2.com." = Some "x.domain2.com"%string ∧
    matched_rule w m "sub.domain2.com." = Some ".domain2.com."%string ∧
    matched_rule w m "sub.domain3.com." = Some "*.domain3.com"%string ∧
    matched_rule w m "domain3.com." = None.
Proof.
  eexists _, _. split; [vm_compute; reflexivity|].
  vm_compute. repeat split.
Qed.

(** ** Further properties of [fastest-tcp.go] *)

(** X1. [NewFastestTCP] keeps the identifier, the wrapped resolver and the
    options it is given.  The probe port is the decimal form of the
    configured port, except that a configured port of 0 gives ["443"]; so
    the probe port is ["443"] exactly when the configured port is 0 or 443,
    and it is never ["0"]. *)
Theorem NewFastestTCP_port
    (name : string) (up : Resolver) (o : FastestTCPOptions) :
  id (NewFastestTCP name up o) = name ∧
  resolver (NewFastestTCP name up o) = up ∧
  opt (NewFastestTCP name up o) = o ∧
  (Port o = 0%Z → port (NewFastestTCP name up o) = "443"%string) ∧
  (Port o ≠ 0%Z → port (NewFastestTCP name up o) = strconv_Itoa (Port o)) ∧
  (port (NewFastestTCP name up o) = "443"%string ↔
   Port o = 0%Z ∨ Port o = 443%Z) ∧
  port (NewFastestTCP name up o) ≠ "0"%string.
Proof.
  assert (Port o ≠ 0%Z → strconv_Itoa (Port o) ≠ "0"%string) as Hne.
  { intros Hport Hzero. apply Hport.
    by apply (inj (pretty : Z → string)). }
  unfold NewFastestTCP. simpl.
  split; [done|]. split; [done|]. split; [done|].
  destruct (decide (Port o = 0%Z)) as [Hzero|Hport].
  - rewrite Hzero. simpl. split; [done|]. split; [done|].
    split; [|done]. split; [by left|done].
  - rewrite decide_False by (by apply Hne).
    split; [done|]. split; [done|]. split; [|by apply Hne].
    split.
    + intros Hp. right. by apply (inj (pretty : Z → string)).
    + intros [? | ->]; [done|reflexivity].
Qed.

Lemma NewFastestTCP_port_witness :
  port (NewFastestTCP "probe" upstream_failing {| Port := 0; WaitAll := true |})
  = "443"%string ∧
  port (NewFastestTCP "probe" upstream_failing
          {| Port := 8443; WaitAll := true |})
  = "8443"%string ∧
  port (NewFastestTCP "probe" upstream_failing
          {| Port := 443; WaitAll := true |})
  = "443"%string.
Proof.
  split; [|split].
  - destruct (NewFastestTCP_port "probe" upstream_failing
                {| Port := 0; WaitAll := true |})
      as (_ & _ & _ & Hzero & _).
    by apply Hzero.
  - destruct (NewFastestTCP_port "probe" upstream_failing
                {| Port := 8443; WaitAll := true |})
      as (_ & _ & _ & _ & Hport & _).
    rewrite Hport; [reflexivity|done].
  - destruct (NewFastestTCP_port "probe" upstream_failing
                {| Port := 443; WaitAll := true |})
      as (_ & _ & _ & _ & _ & Hiff & _).
    apply Hiff. by right.
Defined.

(** How a call that returns relates to the wrapped call: the result is the
    wrapped result, and either nothing was written or a probe round
    succeeded and its records were stored through the answer pointer. *)
Lemma Resolve_cases r w q ci w1 a e w' a' e' :
  Resolver_Resolve (resolver r) w q ci = Return w1 (a, e) →
  Resolve r w q ci = Return w' (a', e') →
  a' = a ∧ e' = e ∧ net w' = net w1 ∧
  (heap w' = heap w1 ∨
   ∃ la am question ipRRs rrs,
     probing r w q ci w1 la am question ipRRs ∧
     probe_round r w1 ipRRs = Some rrs ∧
     heap w' = <[la := set_Answer am rrs]> (heap w1)).
Proof.
  intros Hup Hres.
  destruct e as [e|].
  { unfold Resolve in Hres. rewrite Hup in Hres.
    simplify_eq. by repeat split; try left. }
  destruct (heap w1 !! q) as [qm|] eqn:Hq;
    [|unfold Resolve in Hres; by rewrite Hup, Hq in Hres].
  destruct (Question qm) as [|question rest] eqn:HQ;
    [unfold Resolve in Hres; by rewrite Hup, Hq, HQ in Hres|].
  destruct (decide (Qtype question ≠ dns_TypeA ∧ Qtype question ≠ dns_TypeAAAA))
    as [Hother|Haddr].
  { unfold Resolve in Hres. rewrite Hup, Hq, HQ, decide_True in Hres by done.
    simplify_eq. by repeat split; try left. }
  destruct a as [la|];
    [|unfold Resolve in Hres; by rewrite Hup, Hq, HQ, decide_False in Hres].
  destruct (heap w1 !! la) as [am|] eqn:Ha;
    [|unfold Resolve in Hres;
      by rewrite Hup, Hq, HQ, decide_False, Ha in Hres].
  destruct (decide (length (candidates (Qtype question) (Answer am)) < 2))
    as [Hfew|Htwo].
  { unfold Resolve in Hres.
    rewrite Hup, Hq, HQ, decide_False, Ha, decide_True in Hres by done.
    simplify_eq. by repeat split; try left. }
  assert (probing r w q ci w1 la am question
            (candidates (Qtype question) (Answer am))) as Hp.
  { split; [done| |destruct (decide (Qtype question = dns_TypeA));
                   destruct (decide (Qtype question = dns_TypeAAAA)); tauto
           |done|done|lia].
    exists qm. by rewrite HQ. }
  rewrite (Resolve_probing _ _ _ _ _ _ _ _ _ Hp) in Hres.
  injection Hres as <- <- <-. split; [done|]. split; [done|].
  destruct (probe_round r w1 _) as [rrs|] eqn:Hround.
  - split; [done|]. right.
    by exists la, am, question, (candidates (Qtype question) (Answer am)), rrs.
  - split; [done|]. by left.
Qed.

Lemma length_omap_le {A B} (f : A → option B) (l : list A) :
  length (omap f l) ≤ length l.
Proof.
  induction l as [|x l IH]; csimpl; [done|].
  destruct (f x); simpl; lia.
Qed.

Lemma length_omap_total {A B} (f : A → option B) (l : list A) :
  (∀ x, x ∈ l → is_Some (f x)) → length (omap f l) = length l.
Proof.
  induction l as [|x l IH]; intros Hf; csimpl; [done|].
  destruct (Hf x) as [y ->]; [left|]. simpl. f_equal. apply IH.
  intros z Hz. apply Hf. by right.
Qed.

(** A successful round stores at most as many records as it probed. *)
Lemma probe_round_length r w rrs rrs' :
  probe_round r w rrs = Some rrs' → length rrs' ≤ length rrs.
Proof.
  destruct (WaitAll (opt r)) eqn:Hmode.
  - rewrite probe_round_all by done.
    pose proof (probeAll_loop_spec (length rrs) (probe r w rrs).2 []) as Hspec.
    destruct (probeAll_loop _ _ _) as [rrs0 [e|]]; [done|].
    destruct Hspec as (_ & _ & ->). intros [= <-]. simpl.
    etrans; [apply length_omap_le|]. rewrite length_take. lia.
  - rewrite probe_round_fastest by done.
    destruct (first_result r w rrs) as [[first [e|]]|] eqn:Hfirst; try done.
    intros [= <-].
    apply first_result_sent, sends_elem_of in Hfirst
      as (i & rec & _ & Hrec%lookup_lt_Some & _).
    destruct first; simpl; lia.
Qed.

(** X2. Whenever [Resolve] returns, it returns the pointer and the error
    the wrapped resolver returned: the answer pointer is never replaced
    and no error of its own (a failed or timed-out probe) is ever
    returned. *)
Theorem Resolve_returns_upstream_result
    (r : FastestTCP) (w : World) (q : loc) (ci : ClientInfo)
    (w1 w' : World) (a a' : ptr) (e e' : option error) :
  Resolver_Resolve (resolver r) w q ci = Return w1 (a, e) →
  Resolve r w q ci = Return w' (a', e') →
  a' = a ∧ e' = e.
Proof.
  intros Hup Hres.
  destruct (Resolve_cases _ _ _ _ _ _ _ _ _ _ Hup Hres) as (? & ? & _).
  done.
Qed.

Lemma Resolve_returns_upstream_result_witness :
  ∃ w' a' e',
    Resolve (fastest (upstream three_records) true)
            (world0 a_query (net_refusing 1 [0; 1] 2)) 1%positive ci0
    = Return w' (a', e') ∧ a' = Some 2%positive ∧ e' = None.
Proof.
  eexists _, _, _. split; [vm_compute; reflexivity|].
  eapply (Resolve_returns_upstream_result
            (fastest (upstream three_records) true)
            (world0 a_query (net_refusing 1 [0; 1] 2)) 1%positive ci0);
    reflexivity.
Defined.

(** X3. Whenever [Resolve] returns, the only message it can have written
    is the one behind the answer pointer, and of that message only the
    [Answer] field: header, compression flag, question, authority and
    additional sections are what the wrapped resolver left, and so is
    every other message of the heap. *)
Theorem Resolve_frame
    (r : FastestTCP) (w : World) (q : loc) (ci : ClientInfo)
    (w1 w' : World) (a a' : ptr) (e e' : option error) :
  Resolver_Resolve (resolver r) w q ci = Return w1 (a, e) →
  Resolve r w q ci = Return w' (a', e') →
  (∀ l, a ≠ Some l → heap w' !! l = heap w1 !! l) ∧
  (∀ l am, a = Some l → heap w1 !! l = Some am →
     ∃ m', heap w' !! l = Some m' ∧
       MsgHdr m' = MsgHdr am ∧ Compress m' = Compress am ∧
       Question m' = Question am ∧ Ns m' = Ns am ∧ Extra m' = Extra am).
Proof.
  intros Hup Hres.
  destruct (Resolve_cases _ _ _ _ _ _ _ _ _ _ Hup Hres)
    as (_ & _ & _ & [Hsame|(la & am & question & ipRRs & rrs & Hp & _ & Hw)]).
  - rewrite Hsame. split; [done|]. intros l am _ Hl. by exists am.
  - destruct Hp as [Hup' _ _ Ha _ _]. rewrite Hup in Hup'. simplify_eq.
    rewrite Hw. split.
    + intros l Hl. apply lookup_insert_ne. congruence.
    + intros l am' [= <-] Hl. simplify_eq.
      exists (set_Answer am rrs). by rewrite lookup_insert_eq.
Qed.

Lemma Resolve_frame_witness :
  ∃ w', Resolve (fastest (upstream three_records) true)
                (world0 a_query (net_ok [1; 0] 2)) 1%positive ci0
        = Return w' (Some 2%positive, None) ∧
        heap w' !! 1%positive = Some a_query ∧
        ∃ m', heap w' !! 2%positive = Some m' ∧
              Question m' = Question a_query ∧ MsgHdr m' = hdr0.
Proof.
  eexists. split; [vm_compute; reflexivity|].
  destruct (Resolve_frame
              (fastest (upstream three_records) true)
              (world0 a_query (net_ok [1; 0] 2)) 1%positive ci0
              (after_upstream (net_ok [1; 0] 2)) _ (Some 2%positive) _ None _
              eq_refl eq_refl) as [Hother Hanswer].
  split; [by rewrite Hother|].
  destruct (Hanswer 2%positive (reply a_query three_records) eq_refl eq_refl)
    as (m' & Hm' & HHdr & _ & HQ & _).
  exists m'. by split; [|split].
Defined.

(** X4. Whenever [Resolve] returns, every record of the answer section
    behind the answer pointer was in the answer section the wrapped
    resolver returned, and the section has not grown: probing only ever
    selects among or reorders the upstream records. *)
Theorem Resolve_answer_from_upstream
    (r : FastestTCP) (w : World) (q : loc) (ci : ClientInfo)
    (w1 w' : World) (la : loc) (am : dns_Msg) (a' : ptr)
    (e e' : option error) :
  Resolver_Resolve (resolver r) w q ci = Return w1 (Some la, e) →
  heap w1 !! la = Some am →
  Resolve r w q ci = Return w' (a', e') →
  ∃ m', heap w' !! la = Some m' ∧
    (∀ rec, rec ∈ Answer m' → rec ∈ Answer am) ∧
    length (Answer m') ≤ length (Answer am).
Proof.
  intros Hup Ha Hres.
  destruct (Resolve_cases _ _ _ _ _ _ _ _ _ _ Hup Hres)
    as (_ & _ & _ & [Hsame|(la' & am' & question & ipRRs & rrs & Hp & Hr & Hw)]).
  - exists am. by rewrite Hsame.
  - pose proof (probe_round_candidates _ _ _ _ Hr) as Hsub.
    pose proof (probe_round_length _ _ _ _ Hr) as Hlen.
    destruct Hp as [Hup' _ _ Ha' -> _]. rewrite Hup in Hup'. simplify_eq.
    exists (set_Answer am rrs). rewrite Hw, lookup_insert_eq.
    split; [done|]. simpl. split.
    + intros rec Hin%Hsub. unfold candidates in Hin.
      by apply list_elem_of_filter in Hin as [_ Hin].
    + etrans; [exact Hlen|]. apply length_filter.
Qed.

Lemma Resolve_answer_from_upstream_witness :
  ∃ w' m', Resolve (fastest (upstream three_records) false)
                   (world0 a_query (net_ok [1; 0] 2)) 1%positive ci0
           = Return w' (Some 2%positive, None) ∧
           heap w' !! 2%positive = Some m' ∧
           length (Answer m') ≤ 3.
Proof.
  eexists _. 
  destruct (Resolve_answer_from_upstream
              (fastest (upstream three_records) false)
              (world0 a_query (net_ok [1; 0] 2)) 1%positive ci0
              (after_upstream (net_ok [1; 0] 2)) _ 2%positive
              (reply a_query three_records) (Some 2%positive) None None
              eq_refl eq_refl eq_refl) as (m' & Hm' & _ & Hlen).
  exists m'. split; [reflexivity|]. split; [exact Hm'|exact Hlen].
Defined.

(** A send with an error carries no record. *)
Lemma goroutine_err r n i rec e :
  err (goroutine r n i rec) = Some e → rr (goroutine r n i rec) = None.
Proof.
  unfold goroutine. destruct rec; simpl; try done;
    by destruct (dial _ _ _ _ _).
Qed.

Lemma sends_nil r n : sends r n [] = [].
Proof.
  unfold sends. induction (arrival n) as [|i arr IH]; [done|].
  csimpl. by destruct i.
Qed.

(** X5. [probeFastest] starts one goroutine per record and writes no
    message.  It returns a record exactly when it returns no error, and
    that record is one of the records it was given. *)
Theorem probeFastest_result
    (r : FastestTCP) (w w' : World) (rrs : list dns_RR)
    (first : option dns_RR) (e : option error) :
  probeFastest r w rrs = (w', (first, e)) →
  heap w' = heap w ∧ launched w' = launched w ++ rrs ∧
  (is_Some first ↔ e = None) ∧
  (∀ rec, first = Some rec → rec ∈ rrs).
Proof.
  unfold probeFastest.
  destruct (probe r w rrs) as [w2 ch] eqn:Hprobe.
  assert (w2 = spawned w rrs) as -> by (by rewrite <- (probe_world r), Hprobe).
  assert (head ch = first_result r w rrs) as Hhead
    by (unfold first_result; by rewrite Hprobe).
  destruct ch as [|res ch]; intros [= <- <- <-].
  { split; [done|]. split; [done|]. split; [|done].
    split; [by intros [? ?]|done]. }
  split; [done|]. split; [done|].
  symmetry in Hhead. apply first_result_sent in Hhead.
  pose proof Hhead as (i & rec & _ & Hrec & ->)%sends_elem_of.
  destruct (err (goroutine r (net w) i rec)) as [e|] eqn:He.
  - rewrite (goroutine_err _ _ _ _ _ He). split; [|done].
    split; [by intros [? ?]|done].
  - rewrite (goroutine_ok _ _ _ _ _ eq_refl He). split; [by split; [|eexists]|].
    intros ? [= <-]. by eapply list_elem_of_lookup_2.
Qed.

Lemma probeFastest_result_witness :
  ∃ w' first e,
    probeFastest (fastest upstream_failing false)
      (world0 a_query (net_refusing 0 [1; 0] 2)) [a1; a2] = (w', (first, e)) ∧
    is_Some first ∧ e = None ∧ launched w' = [a1; a2].
Proof.
  eexists _, _, _. split; [vm_compute; reflexivity|].
  destruct (probeFastest_result
              (fastest upstream_failing false)
              (world0 a_query (net_refusing 0 [1; 0] 2)) _ [a1; a2]
              (Some a2) None eq_refl) as (_ & Hl & _ & _).
  split; [by eexists|]. split; [done|exact Hl].
Defined.

(** X6. Without records to probe, [probeFastest] has no result to wait for
    and returns the deadline error, whereas [probeAll] returns at once
    with an empty list and no error. *)
Theorem probe_no_records (r : FastestTCP) (w : World) :
  (probeFastest r w []).2 = (None, Some context_DeadlineExceeded) ∧
  (probeAll r w []).2 = ([], None).
Proof.
  unfold probeFastest, probeAll, probe.
  rewrite sends_nil, take_nil. done.
Qed.

(** X7. [probeAll] starts one goroutine per record and writes no message.
    With an error it returns no record; without an error it returns
    exactly as many records as it was given, each of them one of the
    records it was given. *)
Theorem probeAll_result
    (r : FastestTCP) (w w' : World) (rrs res : list dns_RR)
    (e : option error) :
  probeAll r w rrs = (w', (res, e)) →
  heap w' = heap w ∧ launched w' = launched w ++ rrs ∧
  (is_Some e → res = []) ∧
  (e = None → length res = length rrs ∧ ∀ rec, rec ∈ res → rec ∈ rrs).
Proof.
  unfold probeAll, probe.
  set (ch := take (patience (net w)) (sends r (net w) rrs)).
  pose proof (probeAll_loop_spec (length rrs) ch []) as Hspec.
  intros [= <- Hloop]. rewrite Hloop in Hspec.
  split; [done|]. split; [done|].
  destruct e as [e|].
  - destruct Hspec as [-> _]. split; [done|]. done.
  - split; [by intros [? ?]|]. intros _.
    destruct Hspec as (Hlen & Hall & ->). simpl.
    assert (∀ x, x ∈ take (length rrs) ch →
              ∃ rec, rr x = Some rec ∧ rec ∈ rrs) as Hcarry.
    { intros x Hx. rewrite Forall_forall in Hall.
      apply sends_ok_candidate with (r := r) (n := net w); [|by apply Hall].
      by eapply subseteq_take, subseteq_take. }
    split.
    + rewrite <- (length_take_le ch (length rrs)) at 2 by done.
      apply length_omap_total. intros x Hx.
      destruct (Hcarry x Hx) as (rec & -> & _). by eexists.
    + intros rec (x & Hx & Hrec)%list_elem_of_omap.
      destruct (Hcarry x Hx) as (rec' & Hrec' & Hin). congruence.
Qed.

Lemma probeAll_result_witness :
  ∃ w' res,
    probeAll (fastest upstream_failing true)
      (world0 a_query (net_ok [1; 0] 2)) [a1; a2] = (w', (res, None)) ∧
    length res = 2.
Proof.
  eexists _, _. split; [vm_compute; reflexivity|].
  destruct (probeAll_result
              (fastest upstream_failing true)
              (world0 a_query (net_ok [1; 0] 2)) _ [a1; a2] _ None eq_refl)
    as (_ & _ & _ & Hok).
  by destruct (Hok eq_refl) as [Hlen _].
Defined.

(** X8. When the wrapped resolver returns a nil answer together with a nil
    error, [Resolve] hands the nil answer on for a question that is not for
    an address, and panics on the nil pointer exactly when the question is
    for an address type: the answer is read without a nil check. *)
Theorem Resolve_nil_answer
    (r : FastestTCP) (w : World) (q : loc) (ci : ClientInfo) (w1 : World)
    (qm : dns_Msg) (question : dns_Question) :
  Resolver_Resolve (resolver r) w q ci = Return w1 (None, None) →
  heap w1 !! q = Some qm →
  head (Question qm) = Some question →
  (Resolve r w q ci = Panic NilDereference ↔
   Qtype question = dns_TypeA ∨ Qtype question = dns_TypeAAAA) ∧
  (Resolve r w q ci = Return w1 (None, None) ↔
   Qtype question ≠ dns_TypeA ∧ Qtype question ≠ dns_TypeAAAA).
Proof.
  intros Hup Hq Hhd. unfold Resolve. rewrite Hup, Hq.
  destruct (Question qm) as [|question' rest]; simplify_eq/=.
  case_decide as Hty.
  - split; (split; [done|]); [|done]. intros [?|?]; tauto.
  - split; (split; [|done]); [|done]. intros _.
    destruct (decide (Qtype question = dns_TypeA));
      destruct (decide (Qtype question = dns_TypeAAAA)); tauto.
Qed.

Lemma Resolve_nil_answer_witness :
  Resolve (fastest upstream_dropping false)
          (world0 a_query (net_ok [0; 1] 2)) 1%positive ci0
  = Panic NilDereference.
Proof.
  apply (Resolve_nil_answer
           (fastest upstream_dropping false)
           (world0 a_query (net_ok [0; 1] 2)) 1%positive ci0
           (world0 a_query (net_ok [0; 1] 2)) a_query a_question
           eq_refl eq_refl eq_refl).
  by left.
Defined.

(** X9. Stacking: a [FastestTCP] (in either mode) that wraps a
    first-to-respond [FastestTCP] whose probe round succeeded finds a single
    candidate in the narrowed answer; it returns the inner result as it is,
    starting no goroutine and writing no message of its own. *)
Theorem Resolve_stacked_on_first_to_respond
    (outer inner : FastestTCP) (w : World) (q : loc) (ci : ClientInfo)
    (w1 : World) (la : loc) (am : dns_Msg) (question : dns_Question)
    (ipRRs rrs : list dns_RR) :
  resolver outer = FastestTCP_Resolver inner →
  WaitAll (opt inner) = false →
  probing inner w q ci w1 la am question ipRRs →
  probe_round inner w1 ipRRs = Some rrs →
  Resolve outer w q ci = Resolve inner w q ci.
Proof.
  intros Hwrap Hmode Hp Hround.
  assert (length rrs < 2) as Hone.
  { rewrite probe_round_fastest in Hround by done.
    destruct (first_result inner w1 ipRRs) as [[first [e|]]|]; simplify_eq.
    destruct first; simpl; lia. }
  pose proof (Resolve_probing _ _ _ _ _ _ _ _ _ Hp) as Hinner.
  rewrite Hround in Hinner.
  destruct Hp as [_ (qm & Hq & Hhd) Haddr Ha _ _].
  unfold Resolve at 1. rewrite Hwrap. simpl. rewrite Hinner. simpl.
  assert (∃ qm', <[la := set_Answer am rrs]> (heap w1) !! q = Some qm' ∧
                 Question qm' = Question qm) as (qm' & -> & HQ).
  { destruct (decide (la = q)) as [->|Hne].
    - rewrite lookup_insert_eq. eexists. split; [done|]. simpl. congruence.
    - rewrite lookup_insert_ne by done. by exists qm. }
  rewrite HQ. destruct (Question qm) as [|question' rest]; simplify_eq/=.
  rewrite decide_False by (intros [??]; destruct Haddr; congruence).
  rewrite lookup_insert_eq. simpl.
  rewrite decide_True; [done|].
  unfold candidates. pose proof (length_filter
    (λ rec, Rrtype (Header rec) = Qtype question) rrs). lia.
Qed.

Lemma Resolve_stacked_on_first_to_respond_witness :
  Resolve (NewFastestTCP "outer"
             (FastestTCP_Resolver (fastest (upstream three_records) false))
             {| Port := 853; WaitAll := true |})
          (world0 a_query (net_ok [1; 0] 2)) 1%positive ci0
  = Resolve (fastest (upstream three_records) false)
            (world0 a_query (net_ok [1; 0] 2)) 1%positive ci0.
Proof.
  apply (Resolve_stacked_on_first_to_respond _ _ _ _ _
           (after_upstream (net_ok [1; 0] 2)) 2%positive
           (reply a_query three_records) a_question [a1; a2] [a2]);
    [reflexivity | reflexivity | solve_probing | reflexivity].
Defined.

(** ** Properties of [cmd/routedns/resolver.go] *)

Lemma supported_cases (p : string) :
  p ∈ main.supported ↔
  p = "doq"%string ∨ p = "dot"%string ∨ p = "dtls"%string ∨
  p = "doh"%string ∨ p = "tcp"%string ∨ p = "udp"%string.
Proof. unfold main.supported. set_solver. Qed.

(** X10. For a protocol other than [doq], [dot], [dtls], [doh], [tcp] and
    [udp], [instantiateResolver] returns the error naming the protocol and
    the resolver, and leaves the resolver map as it was. *)
Theorem instantiateResolver_unsupported
    (E : Externals) (id : string) (r : main.resolver)
    (resolvers : gmap string (option Resolver)) :
  main.Protocol r ∉ main.supported →
  main.instantiateResolver E id r resolvers =
    (resolvers,
     Some (errors_New ("unsupported protocol '" +:+ main.Protocol r
                       +:+ "' for resolver '" +:+ id +:+ "'"))).
Proof.
  rewrite supported_cases. intros Hno. unfold main.instantiateResolver.
  repeat (rewrite decide_False by tauto). done.
Qed.

Lemma instantiateResolver_unsupported_witness :
  main.instantiateResolver externals0 "r1" (config0 "quic" "1.1.1.1" "")
    resolvers0
  = (resolvers0,
     Some (errors_New "unsupported protocol 'quic' for resolver 'r1'")).
Proof.
  apply (instantiateResolver_unsupported externals0 "r1"
           (config0 "quic" "1.1.1.1" "") resolvers0).
  by apply (bool_decide_unpack _).
Defined.

(** X11. When the TLS set-up a protocol needs fails ([TLSClientConfig] for
    [doq], [dot] and [doh], [DTLSClientConfig] for [dtls]), that error is
    returned and the resolver map is left as it was: no client is
    constructed. *)
Theorem instantiateResolver_tls_error
    (E : Externals) (id : string) (r : main.resolver)
    (resolvers : gmap string (option Resolver)) (e : error) :
  main.tls_error E r = Some e →
  main.instantiateResolver E id r resolvers = (resolvers, Some e).
Proof.
  unfold main.tls_error, main.instantiateResolver.
  case_decide as Htls.
  - assert (main.Protocol r = "doq"%string ∨ main.Protocol r = "dot"%string
            ∨ main.Protocol r = "doh"%string) as Hp by set_solver.
    destruct (TLSClientConfig E _ _ _ _) as [cfg [e'|]]; simpl; [|done].
    intros [= ->]. destruct Hp as [Hp|[Hp|Hp]]; rewrite Hp; done.
  - case_decide as Hdtls; [|done]. rewrite Hdtls. simpl.
    destruct (DTLSClientConfig E _ _ _) as [cfg [e'|]]; simpl; [|done].
    by intros [= ->].
Qed.

Lemma instantiateResolver_tls_error_witness :
  main.instantiateResolver externals0 "r1"
    (config0 "dot" "dns.example" "missing.pem") resolvers0
  = (resolvers0, Some (errors_New "open missing.pem")).
Proof.
  by apply (instantiateResolver_tls_error externals0 "r1"
              (config0 "dot" "dns.example" "missing.pem") resolvers0).
Defined.

(** X12. Whatever [instantiateResolver] returns, the entries of the
    resolver map under other identifiers are untouched; and when it returns
    no error, the map has an entry for the identifier. *)
Theorem instantiateResolver_frame
    (E : Externals) (id : string) (r : main.resolver)
    (resolvers resolvers' : gmap string (option Resolver))
    (err : option error) :
  main.instantiateResolver E id r resolvers = (resolvers', err) →
  (∀ k, k ≠ id → resolvers' !! k = resolvers !! k) ∧
  (err = None → is_Some (resolvers' !! id)).
Proof.
  unfold main.instantiateResolver, main.assign.
  repeat case_decide; repeat case_match; intros [= <- <-];
    (split; [intros k Hk; by rewrite ?lookup_insert_ne|]);
    try done; intros _; rewrite lookup_insert_eq; by eexists.
Qed.

Lemma instantiateResolver_frame_witness :
  ∃ resolvers',
    main.instantiateResolver externals0 "r1" (config0 "udp" "9.9.9.9" "")
      resolvers0 = (resolvers', None) ∧
    resolvers' !! "old"%string = Some (Some upstream_failing) ∧
    is_Some (resolvers' !! "r1"%string).
Proof.
  eexists. split; [vm_compute; reflexivity|].
  destruct (instantiateResolver_frame externals0 "r1"
              (config0 "udp" "9.9.9.9" "") resolvers0 _ None eq_refl)
    as [Hother Hid].
  split; [by rewrite Hother|by apply Hid].
Defined.

(** X13. Once the TLS set-up (if any) has succeeded, [instantiateResolver]
    assigns the map entry of the identifier before it looks at the
    constructor's error: the entry holds the client the constructor of the
    protocol returned and the error returned is the constructor's, also
    when that error is not nil.  The constructor is called with the
    identifier, the address completed with the default port of the
    protocol, and the options built from the configuration. *)
Theorem instantiateResolver_assigns
    (E : Externals) (id : string) (r : main.resolver)
    (resolvers : gmap string (option Resolver)) :
  let tls :=
    TLSClientConfig E (main.CA r) (main.ClientCrt r) (main.ClientKey r)
      (main.ServerName r) in
  let dtls :=
    DTLSClientConfig E (main.CA r) (main.ClientCrt r) (main.ClientKey r) in
  let stored (made : option Resolver * option error) :=
    main.instantiateResolver E id r resolvers
    = (<[id := made.1]> resolvers, made.2) in
  (main.Protocol r = "doq"%string → tls.2 = None →
   stored (NewDoQClient E id
             (AddressWithDefault E (main.Address r) (DoQPort E))
             {| DoQ_BootstrapAddr := main.BootstrapAddr r;
                DoQ_LocalAddr := net_ParseIP E (main.LocalAddr r);
                DoQ_TLSConfig := tls.1;
                DoQ_QueryTimeout := seconds (main.QueryTimeout r) |})) ∧
  (main.Protocol r = "dot"%string → tls.2 = None →
   stored (NewDoTClient E id
             (AddressWithDefault E (main.Address r) (DoTPort E))
             {| DoT_BootstrapAddr := main.BootstrapAddr r;
                DoT_LocalAddr := net_ParseIP E (main.LocalAddr r);
                DoT_TLSConfig := tls.1;
                DoT_QueryTimeout := seconds (main.QueryTimeout r);
                DoT_Dialer := main.socks5DialerFromConfig E r |})) ∧
  (main.Protocol r = "dtls"%string → dtls.2 = None →
   stored (NewDTLSClient E id
             (AddressWithDefault E (main.Address r) (DTLSPort E))
             {| DTLS_BootstrapAddr := main.BootstrapAddr r;
                DTLS_LocalAddr := net_ParseIP E (main.LocalAddr r);
                DTLS_DTLSConfig := dtls.1;
                DTLS_UDPSize := main.EDNS0UDPSize r;
                DTLS_QueryTimeout := seconds (main.QueryTimeout r) |})) ∧
  (main.Protocol r = "doh"%string → tls.2 = None →
   stored (NewDoHClient E id
             (AddressWithDefault E (main.Address r) (DoHPort E))
             {| DoH_Method := main.Method (main.DoH r);
                DoH_TLSConfig := tls.1;
                DoH_BootstrapAddr := main.BootstrapAddr r;
                DoH_Transport := main.Transport r;
                DoH_LocalAddr := net_ParseIP E (main.LocalAddr r);
                DoH_QueryTimeout := seconds (main.QueryTimeout r) |})) ∧
  (main.Protocol r = "tcp"%string ∨ main.Protocol r = "udp"%string →
   stored (NewDNSClient E id
             (AddressWithDefault E (main.Address r) (PlainDNSPort E))
             (main.Protocol r)
             {| DNS_LocalAddr := net_ParseIP E (main.LocalAddr r);
                DNS_UDPSize := main.EDNS0UDPSize r;
                DNS_QueryTimeout := seconds (main.QueryTimeout r);
                DNS_Dialer := main.socks5DialerFromConfig E r |})).
Proof.
  intros tls dtls stored. subst stored. cbv beta.
  unfold main.instantiateResolver, main.assign. fold tls dtls.
  repeat split.
  - intros -> Htls. destruct tls as [cfg [e|]]; simplify_eq/=. done.
  - intros -> Htls. destruct tls as [cfg [e|]]; simplify_eq/=. done.
  - intros -> Hdtls. destruct dtls as [cfg [e|]]; simplify_eq/=. done.
  - intros -> Htls. destruct tls as [cfg [e|]]; simplify_eq/=. done.
  - intros [Hp|Hp]; rewrite Hp; done.
Qed.

Lemma instantiateResolver_assigns_witness :
  main.instantiateResolver externals0 "old" (config0 "tcp" "" "") resolvers0
  = (<["old"%string := None]> resolvers0,
     Some (errors_New "missing host")) ∧
  main.instantiateResolver externals0 "old"
    (config0 "doh" "https://dns.example/dns-query" "") resolvers0
  = (<["old"%string := Some upstream_failing]> resolvers0, None).
Proof.
  destruct (instantiateResolver_assigns externals0 "old"
              (config0 "tcp" "" "") resolvers0)
    as (_ & _ & _ & _ & Hplain).
  destruct (instantiateResolver_assigns externals0 "old"
              (config0 "doh" "https://dns.example/dns-query" "") resolvers0)
    as (_ & _ & _ & Hdoh & _).
  split.
  - rewrite Hplain by (by left). reflexivity.
  - rewrite Hdoh by reflexivity. reflexivity.
Defined.

(** X14. The socks5 settings are read for [dot], [tcp] and [udp] only: for
    [doq], [dtls] and [doh] the outcome of [instantiateResolver] does not
    depend on them. *)
Theorem instantiateResolver_ignores_socks5
    (E : Externals) (id : string) (r : main.resolver)
    (resolvers : gmap string (option Resolver))
    (address username password : string) :
  main.Protocol r ∈ ["doq"; "dtls"; "doh"]%string →
  main.instantiateResolver E id
    (main.with_socks5 r address username password) resolvers
  = main.instantiateResolver E id r resolvers.
Proof.
  intros Hp.
  assert (main.Protocol r = "doq"%string ∨ main.Protocol r = "dtls"%string
          ∨ main.Protocol r = "doh"%string) as Hcases by set_solver.
  unfold main.instantiateResolver, main.with_socks5. simpl.
  destruct Hcases as [Hc|[Hc|Hc]]; rewrite Hc; reflexivity.
Qed.

Lemma instantiateResolver_ignores_socks5_witness :
  main.instantiateResolver externals0 "r1"
    (main.with_socks5 (config0 "doh" "https://dns.example/dns-query" "")
       "127.0.0.1:1080" "user" "secret") resolvers0
  = main.instantiateResolver externals0 "r1"
      (config0 "doh" "https://dns.example/dns-query" "") resolvers0.
Proof.
  apply (instantiateResolver_ignores_socks5 externals0 "r1"
           (config0 "doh" "https://dns.example/dns-query" "") resolvers0).
  by apply (bool_decide_unpack _).
Defined.

Lemma seconds_in_range (n : Z) :
  (-9223372036 ≤ n ≤ 9223372036)%Z → seconds n = (n * 1000000000)%Z.
Proof.
  intros Hn. unfold seconds, int64_wrap, time_Second.
  change (2 ^ 63)%Z with 9223372036854775808%Z.
  change (2 ^ 64)%Z with 18446744073709551616%Z.
  rewrite Z.mod_small by lia. lia.
Qed.

(** X15. For [tcp] and [udp] no TLS set-up is consulted: the plain DNS
    client is constructed for the address completed with the plain DNS
    port and for the configured protocol, and its result is assigned to the
    map entry.  A query timeout of at most 9223372036 seconds in absolute
    value reaches the client as that many seconds, without overflow. *)
Theorem instantiateResolver_plain
    (E : Externals) (id : string) (r : main.resolver)
    (resolvers : gmap string (option Resolver)) :
  main.Protocol r = "tcp"%string ∨ main.Protocol r = "udp"%string →
  (-9223372036 ≤ main.QueryTimeout r ≤ 9223372036)%Z →
  main.instantiateResolver E id r resolvers =
    main.assign id resolvers
      (NewDNSClient E id
         (AddressWithDefault E (main.Address r) (PlainDNSPort E))
         (main.Protocol r)
         {| DNS_LocalAddr := net_ParseIP E (main.LocalAddr r);
            DNS_UDPSize := main.EDNS0UDPSize r;
            DNS_QueryTimeout := (main.QueryTimeout r * 1000000000)%Z;
            DNS_Dialer := main.socks5DialerFromConfig E r |}).
Proof.
  intros Hp Hrange. unfold main.instantiateResolver.
  rewrite (seconds_in_range _ Hrange).
  destruct Hp as [Hp|Hp]; rewrite Hp; reflexivity.
Qed.

Lemma instantiateResolver_plain_witness :
  main.instantiateResolver externals0 "r1" (config0 "udp" "9.9.9.9" "")
    resolvers0
  = (<["r1"%string := Some upstream_failing]> resolvers0, None).
Proof.
  rewrite (instantiateResolver_plain externals0 "r1"
             (config0 "udp" "9.9.9.9" "") resolvers0);
    [reflexivity | by right | simpl; lia].
Defined.
